(** * chess-puzzle-maker: the position list of a puzzle

    A shallow embedding of [modules/position_list_node.py].  A puzzle line is
    a singly linked list of [PositionListNode]s; every node owns two
    [chess.Board] objects, the engine's best move, its evaluation, the
    candidate moves used for the ambiguity test and the next node.

    The collaborators of the module are not part of it and are taken as an
    interface ([Collaborators]): python-chess ([chess.Board], [chess.Move]),
    [modules.utils], [modules.candidate_moves] and the UCI engine of
    [modules.analysis].

    [chess.Board] objects are mutable and passed by reference, so they live
    in a store addressed by locations; the nodes of a chain are referenced
    by their predecessor only and are passed as values. *)

From stdpp Require Import base option list gmap strings.
From Stdlib Require Import QArith Qabs.

Set Default Proof Using "Type".
Local Open Scope Z_scope.
Local Open Scope nat_scope.

(** ** Values of python-chess *)

(** [chess.uci.Score]: a named tuple [(cp, mate)], either field may be
    [None]. *)
Record Score := mkScore { cp : option Z; mate : option Z }.

(** [chess.uci.BestMove]: the named tuple [(bestmove, ponder)] returned by
    [engine.go]. *)
Record BestMove (Move : Type) :=
  mkBestMove { bestmove : option Move; ponder : option Move }.
Arguments mkBestMove {Move} _ _.
Arguments bestmove {Move} _.
Arguments ponder {Move} _.

(** The [info] dictionary of the first info handler after a search: the
    entries ["score"] and ["pv"], both dictionaries indexed by the number of
    the principal variation (from 1). *)
Record Info (Move : Type) :=
  mkInfo { info_score : gmap nat Score; info_pv : gmap nat (list Move) }.
Arguments mkInfo {Move} _ _.
Arguments info_score {Move} _.
Arguments info_pv {Move} _.

(** What is sent to the engine. *)
Inductive UciCommand (Board : Type) :=
  | CmdPosition (board : Board)
  | CmdGo (depth : Z)
  | CmdSetOption (name : string) (value : nat).
Arguments CmdPosition {Board} _.
Arguments CmdGo {Board} _.
Arguments CmdSetOption {Board} _ _.

(** ** The collaborators *)

Record Collaborators := {
  Board : Type;
  Move : Type;
  (* chess.Board and chess.Move *)
  push : Board -> Move -> Board;
  is_game_over : Board -> bool;
  is_checkmate : Board -> bool;
  legal_moves_count : Board -> nat;
  san : Board -> Move -> string;
  fen : Board -> string;
  board_str : Board -> string;
  uci : Move -> string;
  (* modules.utils; a result [None] of [normalize_score] stands for an
     exception raised inside it *)
  utils_material_difference : Board -> Q;
  material_count : Board -> Q;
  fullmove_string : Board -> string;
  normalize_score : Board -> option Score -> option Score;
  (* modules.candidate_moves.ambiguous *)
  candidate_moves_ambiguous : list (option Score) -> bool;
  (* the engine process: its answer to a [go], as a function of everything
     sent to it so far (the [go] included) *)
  engine_search : list (UciCommand Board) -> BestMove Move * Info Move
}.

(** ** Exceptions and outcomes *)

Inductive Exn :=
  | AttributeError
  | TypeError
  | KeyError
  | IndexError
  | UtilsError.

Inductive Outcome (A : Type) :=
  | Ok (a : A)
  | Raise (e : Exn)
  | OutOfFuel.
Arguments Ok {A} _.
Arguments Raise {A} _.
Arguments OutOfFuel {A}.

Definition obind {A B} (m : Outcome A) (f : A -> Outcome B) : Outcome B :=
  match m with
  | Ok a => f a
  | Raise e => Raise e
  | OutOfFuel => OutOfFuel
  end.

(** Python's comparisons on numbers. *)
Definition Qgtb (x y : Q) : bool := negb (Qle_bool x y).
Definition Qltb (x y : Q) : bool := negb (Qle_bool y x).

Definition loc := nat.

Section Node.

Context {E : Collaborators}.

Abbreviation board := (Board E).
Abbreviation move := (Move E).

(** [CandidateMove = namedtuple("CandidateMove", ["move_uci", "move_san",
    "evaluation"])] *)
Record CandidateMove := mkCandidateMove {
  move_uci : string;
  move_san : string;
  cm_evaluation : option Score
}.

(** The attributes of a node.  [initial_position] and [position] are
    references to [chess.Board] objects. *)
#[local] Unset Elimination Schemes.
Inductive PositionListNode := mkNode {
  initial_position : loc;
  initial_move : move;
  position : loc;
  player_turn : bool;
  best_move : option (BestMove move);
  evaluation : option Score;
  next_position : option PositionListNode;
  candidate_moves : list CandidateMove;
  strict : bool
}.
#[local] Set Elimination Schemes.

Definition set_best_move (self : PositionListNode) v :=
  mkNode (initial_position self) (initial_move self) (position self)
    (player_turn self) v (evaluation self) (next_position self)
    (candidate_moves self) (strict self).

Definition set_evaluation (self : PositionListNode) v :=
  mkNode (initial_position self) (initial_move self) (position self)
    (player_turn self) (best_move self) v (next_position self)
    (candidate_moves self) (strict self).

Definition set_next_position (self : PositionListNode) v :=
  mkNode (initial_position self) (initial_move self) (position self)
    (player_turn self) (best_move self) (evaluation self) v
    (candidate_moves self) (strict self).

Definition set_candidate_moves (self : PositionListNode) v :=
  mkNode (initial_position self) (initial_move self) (position self)
    (player_turn self) (best_move self) (evaluation self)
    (next_position self) v (strict self).

(** The nodes of a chain, from [self] to the tail. *)
Fixpoint links (self : PositionListNode) : list PositionListNode :=
  self :: match next_position self with
          | Some next => links next
          | None => []
          end.

(** The last node of a chain. *)
Fixpoint tail_link (self : PositionListNode) : PositionListNode :=
  match next_position self with
  | Some next => tail_link next
  | None => self
  end.

(** ** The state of the program *)

(** One record per call of [logging.debug]. *)
Inductive LogRecord :=
  | LogAfter (fullmove : string) (san_ : string)
  | LogFen (fen_ : string)
  | LogBoard (text : string)
  | LogMaterialDifference (d : Q)
  | LogLegalMoves (n : nat)
  | LogNoLegalMoves
  | LogNotDeeperGameOver
  | LogGoingDeeper
  | LogNotGoingDeeper (why : string)
  | LogEvaluatingBest (depth : Z)
  | LogNoBestMove
  | LogEvaluatingBestN (multipv : nat) (depth : Z)
  | LogMoveMate (fullmove san_ uci_ : string) (mate_ : Z)
  | LogMoveCp (fullmove san_ uci_ : string) (cp_ : Z).

(** The engine: what was sent to it, and the [info] of its handler. *)
Record Engine := mkEngine {
  sent : list (UciCommand board);
  info : Info move
}.

(** The boards allocated so far ([boards l] for [l < next_loc]), the engine
    and the log. *)
Record World := mkWorld {
  boards : loc -> board;
  next_loc : loc;
  engine : Engine;
  log : list LogRecord
}.

Definition M (A : Type) : Type := World -> Outcome (A * World).

Definition ret {A} (a : A) : M A := fun w => Ok (a, w).

Definition bind {A B} (m : M A) (f : A -> M B) : M B :=
  fun w => match m w with
           | Ok (a, w') => f a w'
           | Raise e => Raise e
           | OutOfFuel => OutOfFuel
           end.

Definition raise {A} (e : Exn) : M A := fun _ => Raise e.

(** A read-only method, run on the boards of the current state. *)
Definition pure {A} (f : (loc -> board) -> Outcome A) : M A :=
  fun w => obind (f (boards w)) (fun a => Ok (a, w)).


Notation "x <- m ;; k" := (bind m (fun x => k))
  (at level 100, m at next level, right associativity).
Notation "m ;;; k" := (bind m (fun _ => k))
  (at level 100, right associativity).

(** *** Boards *)

(** Reading the board a reference points to. *)
Definition read (l : loc) : M board := fun w => Ok (boards w l, w).

(** [board.copy()]: a new board object with the same contents. *)
Definition board_copy (l : loc) : M loc :=
  fun w =>
    Ok (next_loc w,
        mkWorld (fun l' => if Nat.eqb l' (next_loc w) then boards w l
                           else boards w l')
                (S (next_loc w)) (engine w) (log w)).

(** [board.push(move)]: the board object is changed in place. *)
Definition board_push (l : loc) (m : move) : M unit :=
  fun w =>
    Ok (tt,
        mkWorld (fun l' => if Nat.eqb l' l then push E (boards w l) m
                           else boards w l')
                (next_loc w) (engine w) (log w)).

(** *** Logging and the engine *)

Definition logging_debug (r : LogRecord) : M unit :=
  fun w => Ok (tt, mkWorld (boards w) (next_loc w) (engine w) (log w ++ [r])).

Definition engine_send (c : UciCommand board) : M unit :=
  fun w =>
    Ok (tt, mkWorld (boards w) (next_loc w)
              (mkEngine (sent (engine w) ++ [c]) (info (engine w))) (log w)).

(** [engine.position(board)] *)
Definition engine_position (l : loc) : M unit :=
  b <- read l ;; engine_send (CmdPosition b).

(** [engine.setoption({ "MultiPV": n })] *)
Definition engine_setoption_MultiPV (n : nat) : M unit :=
  engine_send (CmdSetOption "MultiPV" n).

(** [engine.go(depth=depth)]: the search fills the [info] of the handler and
    returns the best move. *)
Definition engine_go (depth : Z) : M (BestMove move) :=
  fun w =>
    let cmds := sent (engine w) ++ [CmdGo depth] in
    let '(bm, i) := engine_search E cmds in
    Ok (bm, mkWorld (boards w) (next_loc w) (mkEngine cmds i) (log w)).

(** [engine.info_handlers[0].info] *)
Definition engine_info : M (Info move) := fun w => Ok (info (engine w), w).

(** ** PositionListNode *)

(** [PositionListNode(position, initial_move, player_turn, strict)] *)
Definition __init__ (position_ : loc) (initial_move_ : move)
    (player_turn_ strict_ : bool) : M PositionListNode :=
  ip <- board_copy position_ ;;
  p <- board_copy position_ ;;
  board_push p initial_move_ ;;;
  ret (mkNode ip initial_move_ p player_turn_ None None None [] strict_).

Definition material_difference (boards_ : loc -> board)
    (self : PositionListNode) : Q :=
  utils_material_difference E (boards_ (position self)).

Definition ambiguous (self : PositionListNode) : bool :=
  candidate_moves_ambiguous E (map cm_evaluation (candidate_moves self)).

Definition game_over (boards_ : loc -> board) (self : PositionListNode)
    : Outcome bool :=
  if is_game_over E (boards_ (position self)) then Ok true
  else match next_position self with
       | None => Raise AttributeError
       | Some next => Ok (is_game_over E (boards_ (position next)))
       end.

Fixpoint move_list (boards_ : loc -> board) (self : PositionListNode)
    : Outcome (list string) :=
  let own_move :=
    match best_move self with
    | None => Raise AttributeError
    | Some bm => match bestmove bm with
                 | None => Raise AttributeError
                 | Some m => Ok (uci E m)
                 end
    end in
  let stop :=
    match best_move self with
    | Some _ => obind own_move (fun u => Ok [u])
    | None => Ok []
    end in
  match next_position self with
  | None => stop
  | Some next =>
      if ambiguous next || is_game_over E (boards_ (position next))
      then stop
      else obind own_move (fun u =>
           obind (move_list boards_ next) (fun rest => Ok (u :: rest)))
  end.

Fixpoint category (boards_ : loc -> board) (self : PositionListNode)
    : string :=
  match next_position self with
  | Some next => category boards_ next
  | None => if is_game_over E (boards_ (position self)) then "Mate"
            else "Material"
  end.

Definition _log_position (self : PositionListNode) : M unit :=
  ip <- read (initial_position self) ;;
  let move_san_ := san E ip (initial_move self) in
  logging_debug (LogAfter (fullmove_string E ip) move_san_) ;;;
  p <- read (position self) ;;
  logging_debug (LogFen (fen E p)) ;;;
  logging_debug (LogBoard (board_str E p)) ;;;
  logging_debug (LogMaterialDifference (utils_material_difference E p)) ;;;
  logging_debug (LogLegalMoves (legal_moves_count E p)).

Definition _log_move (self : PositionListNode) (m : move)
    (score : option Score) : M unit :=
  b <- read (position self) ;;
  let move_san_ := san E b m in
  match normalize_score E b score with
  | None => raise UtilsError
  | Some score' =>
      match mate score' with
      | Some n =>
          logging_debug
            (LogMoveMate (fullmove_string E b) move_san_ (uci E m) n)
      | None =>
          match cp score' with
          | Some c =>
              logging_debug
                (LogMoveCp (fullmove_string E b) move_san_ (uci E m) c)
          | None => raise TypeError
          end
      end
  end.

Definition evaluate_best (depth : Z) (self : PositionListNode)
    : M (bool * PositionListNode) :=
  logging_debug (LogEvaluatingBest depth) ;;;
  engine_position (position self) ;;;
  bm <- engine_go depth ;;
  let self := set_best_move self (Some bm) in
  match bestmove bm with
  | Some m =>
      i <- engine_info ;;
      match info_score i !! 1 with
      | None => raise KeyError
      | Some ev =>
          let self := set_evaluation self (Some ev) in
          tmp <- board_copy (position self) ;;
          next <- __init__ tmp m (negb (player_turn self)) (strict self) ;;
          let self := set_next_position self (Some next) in
          _log_move self m (evaluation self) ;;;
          ret (true, self)
      end
  | None =>
      logging_debug LogNoBestMove ;;;
      ret (false, self)
  end.

(** The body of the loop of [evaluate_candidate_moves], for one [i]. *)
Definition candidate_step (i_ : Info move) (self : PositionListNode)
    (i : nat) : M PositionListNode :=
  match info_pv i_ !! (i + 1) with
  | None => raise TypeError
  | Some pv =>
      match pv !! 0 with
      | None => raise IndexError
      | Some m =>
          let evaluation_ := info_score i_ !! (i + 1) in
          _log_move self m evaluation_ ;;;
          b <- read (position self) ;;
          ret (set_candidate_moves self
                 (candidate_moves self ++
                  [mkCandidateMove (uci E m) (san E b m) evaluation_]))
      end
  end.

Fixpoint for_range (body : PositionListNode -> nat -> M PositionListNode)
    (self : PositionListNode) (range : list nat) : M PositionListNode :=
  match range with
  | [] => ret self
  | i :: range' => self' <- body self i ;; for_range body self' range'
  end.

Definition evaluate_candidate_moves (depth : Z) (self : PositionListNode)
    : M PositionListNode :=
  b <- read (position self) ;;
  let multipv := Nat.min 3 (legal_moves_count E b) in
  if Nat.eqb multipv 0 then ret self
  else
    logging_debug (LogEvaluatingBestN multipv depth) ;;;
    engine_setoption_MultiPV multipv ;;;
    engine_position (position self) ;;;
    engine_go depth ;;;
    i <- engine_info ;;
    self <- for_range (candidate_step i) self (seq 0 multipv) ;;
    engine_setoption_MultiPV 1 ;;;
    ret self.

(** [generate]: the recursion follows the chain the engine produces, which
    need not end; [fuel] bounds the number of nested calls. *)
Fixpoint generate (fuel : nat) (depth : Z) (self : PositionListNode)
    : M PositionListNode :=
  match fuel with
  | O => fun _ => OutOfFuel
  | S fuel' =>
      _log_position self ;;;
      b <- read (position self) ;;
      if Nat.eqb (legal_moves_count E b) 0 then
        logging_debug LogNoLegalMoves ;;;
        ret self
      else
        r <- evaluate_best depth self ;;
        let '(has_best, self) := r in
        if negb has_best then
          logging_debug LogNotDeeperGameOver ;;;
          ret self
        else
          self <- evaluate_candidate_moves depth self ;;
          deeper <-
            (if negb (player_turn self) then ret true
             else if negb has_best then ret false
             else if ambiguous self then ret false
             else g <- pure (fun bs => game_over bs self) ;; ret (negb g)) ;;
          if deeper : bool then
            logging_debug LogGoingDeeper ;;;
            match next_position self with
            | None => raise AttributeError
            | Some next =>
                next' <- generate fuel' depth next ;;
                ret (set_next_position self (Some next'))
            end
          else
            why <-
              (if ambiguous self then ret "ambiguous"
               else g <- pure (fun bs => game_over bs self) ;;
                    ret (if g : bool then "game over" else "")) ;;
            logging_debug (LogNotGoingDeeper why) ;;;
            ret self
  end.

(** The part of [is_complete] below the descent along the chain: the verdict
    at the link where the descent stops.  Material values are numbers of
    Python, taken here as rationals. *)
Definition is_complete_here (boards_ : loc -> board)
    (self : PositionListNode) (category_ : string) (white_to_move : bool)
    (initial_material_diff : Q) : Outcome bool :=
  if String.eqb category_ "Material" then
    let num_pieces := material_count E (boards_ (position self)) in
    let final_material_change :=
      Qabs (material_difference boards_ self - initial_material_diff) in
    let no_mate_and_pieces :=
      match evaluation self with
      | None => Raise AttributeError
      | Some ev =>
          Ok (match mate ev with None => true | Some _ => false end
              && Qgtb num_pieces 6)
      end in
    if white_to_move then
      if Qgtb (material_difference boards_ self) (2 # 10)
         && Qgtb final_material_change (1 # 10)
         && Qltb initial_material_diff 2
      then no_mate_and_pieces else Ok false
    else
      if Qltb (material_difference boards_ self) (- (2 # 10))
         && Qgtb final_material_change (1 # 10)
         && Qgtb initial_material_diff (- (2))
      then no_mate_and_pieces else Ok false
  else Ok (is_game_over E (boards_ (position self))).

Fixpoint is_complete (boards_ : loc -> board) (self : PositionListNode)
    (category_ : string) (white_to_move : bool) (initial_material_diff : Q)
    : Outcome bool :=
  match next_position self with
  | Some next =>
      if String.eqb category_ "Mate" && negb (ambiguous self) then
        is_complete boards_ next category_ white_to_move
          initial_material_diff
      else if String.eqb category_ "Material"
              && match next_position next with
                 | Some _ => true
                 | None => false
                 end then
        is_complete boards_ next category_ white_to_move
          initial_material_diff
      else
        is_complete_here boards_ self category_ white_to_move
          initial_material_diff
  | None =>
      is_complete_here boards_ self category_ white_to_move
        initial_material_diff
  end.

(** ** Notions used to state the properties *)

(** Induction along a chain. *)
Fixpoint chain_ind (P : PositionListNode -> Prop)
    (Htail : forall self, next_position self = None -> P self)
    (Hnext : forall self next,
        next_position self = Some next -> P next -> P self)
    (self : PositionListNode) {struct self} : P self :=
  match self with
  | mkNode ip im p pt bm ev nx cm st =>
      match nx as o return P (mkNode ip im p pt bm ev o cm st) with
      | None => Htail (mkNode ip im p pt bm ev None cm st) eq_refl
      | Some next =>
          Hnext (mkNode ip im p pt bm ev (Some next) cm st) next eq_refl
            (chain_ind P Htail Hnext next)
      end
  end.

(** The link at which [is_complete] stops descending for the category
    ['Mate']: the first ambiguous link, or the tail. *)
Fixpoint mate_reached (self : PositionListNode) : PositionListNode :=
  match next_position self with
  | Some next => if ambiguous self then self else mate_reached next
  | None => self
  end.

(** The link at which [is_complete] stops descending for the category
    ['Material']: the first link whose successor has no successor. *)
Fixpoint material_reached (self : PositionListNode) : PositionListNode :=
  match next_position self with
  | Some next =>
      match next_position next with
      | Some _ => material_reached next
      | None => self
      end
  | None => self
  end.

(** The line shown to the player, as [move_list] is described: the best
    moves from a link on, up to the first link whose successor is ambiguous
    or stands on a position that is game over; a link without a best move
    adds nothing. *)
Fixpoint forced_line (boards_ : loc -> board) (self : PositionListNode)
    : list string :=
  match best_move self with
  | Some (mkBestMove (Some m) _) =>
      uci E m ::
      match next_position self with
      | Some next =>
          if ambiguous next || is_game_over E (boards_ (position next))
          then []
          else forced_line boards_ next
      | None => []
      end
  | _ => []
  end.

(** The engine had a move on every link it was asked about: [best_move] is
    either unset, on a link without successor, or carries a move. *)
Definition has_move (self : PositionListNode) : Prop :=
  match best_move self with
  | Some bm => is_Some (bestmove bm)
  | None => next_position self = None
  end.

(** [position] holds [initial_position] with [initial_move] pushed. *)
Definition link_ok (boards_ : loc -> board) (self : PositionListNode)
    : Prop :=
  boards_ (position self)
  = push E (boards_ (initial_position self)) (initial_move self).

(** Both boards of the link are allocated. *)
Definition allocated (w : World) (self : PositionListNode) : Prop :=
  initial_position self < next_loc w /\ position self < next_loc w.

(** [w'] is [w] with more boards: no board of [w] has changed. *)
Definition extends (w w' : World) : Prop :=
  next_loc w <= next_loc w'
  /\ forall l, l < next_loc w -> boards w' l = boards w l.

(** [w'] is [w] up to the engine and the log. *)
Definition same_boards (w w' : World) : Prop :=
  boards w' = boards w /\ next_loc w' = next_loc w.

(** The link owns two allocated boards, and [position] holds
    [initial_position] with [initial_move] pushed. *)
Definition owned (w : World) (self : PositionListNode) : Prop :=
  allocated w self /\ link_ok (boards w) self.

(** No more candidate moves than [min(3, legal_moves.count())]. *)
Definition candidates_bounded (boards_ : loc -> board)
    (self : PositionListNode) : Prop :=
  length (candidate_moves self)
  <= Nat.min 3 (legal_moves_count E (boards_ (position self))).

(** The state after the caller has changed one of its own boards. *)
Definition caller_writes (l : loc) (b : board) (w : World) : World :=
  mkWorld (fun l' => if Nat.eqb l' l then b else boards w l')
    (next_loc w) (engine w) (log w).

(** The records [_log_position] writes. *)
Definition position_records (boards_ : loc -> board)
    (self : PositionListNode) : list LogRecord :=
  let ip := boards_ (initial_position self) in
  let p := boards_ (position self) in
  [LogAfter (fullmove_string E ip) (san E ip (initial_move self));
   LogFen (fen E p);
   LogBoard (board_str E p);
   LogMaterialDifference (utils_material_difference E p);
   LogLegalMoves (legal_moves_count E p)].

Definition add_log (w : World) (rs : list LogRecord) : World :=
  mkWorld (boards w) (next_loc w) (engine w) (log w ++ rs).

(** The next link is for the other side and has the same [strict]. *)
Definition turn_flips (self : PositionListNode) : Prop :=
  match next_position self with
  | Some next =>
      player_turn next = negb (player_turn self)
      /\ strict next = strict self
  | None => True
  end.

(** The next link continues the line: it was entered by the best move of
    this link, from the position of this link, and this link has an
    evaluation. *)
Definition continues (boards_ : loc -> board) (self : PositionListNode)
    : Prop :=
  match next_position self with
  | Some next =>
      (exists bm, best_move self = Some bm
                  /\ bestmove bm = Some (initial_move next))
      /\ is_Some (evaluation self)
      /\ boards_ (initial_position next) = boards_ (position self)
  | None => True
  end.

(** [best_move] is an answer of the engine, or unset on a link without
    successor. *)
Definition answered (self : PositionListNode) : Prop :=
  match best_move self with
  | Some bm => exists cmds, bm = (engine_search E cmds).1
  | None => next_position self = None
  end.

(** The best moves of all links of the chain, in UCI notation. *)
Fixpoint best_ucis (self : PositionListNode) : list string :=
  match best_move self with
  | Some (mkBestMove (Some m) _) => [uci E m]
  | _ => []
  end ++
  match next_position self with
  | Some next => best_ucis next
  | None => []
  end.

(** The candidate move [evaluate_candidate_moves] stores for the variation
    [i + 1] of an answer of the engine, when the answer has one. *)
Definition candidate_of (i_ : Info move) (b : board) (i : nat)
    : option CandidateMove :=
  match info_pv i_ !! (i + 1) with
  | Some (m :: _) =>
      Some (mkCandidateMove (uci E m) (san E b m) (info_score i_ !! (i + 1)))
  | _ => None
  end.


(** No link of the chain that has a successor is ambiguous. *)
Definition unambiguous_line (self : PositionListNode) : Prop :=
  Forall (fun link => is_Some (next_position link) -> ambiguous link = false)
    (links self).

(** What the engine has been sent once [evaluate_best] has searched. *)
Definition best_commands (depth : Z) (self : PositionListNode) (w : World)
    : list (UciCommand board) :=
  (sent (engine w) ++ [CmdPosition (boards w (position self))])
  ++ [CmdGo depth].

(** The value of the option [MultiPV] after the commands [cmds], when it
    was [n] before. *)
Fixpoint multipv_after (cmds : list (UciCommand board)) (n : nat) : nat :=
  match cmds with
  | [] => n
  | CmdSetOption name value :: cmds' =>
      multipv_after cmds' (if String.eqb name "MultiPV" then value else n)
  | _ :: cmds' => multipv_after cmds' n
  end.

(** What the engine has been sent once [evaluate_candidate_moves] has
    searched for [multipv] variations. *)
Definition candidate_commands (depth : Z) (self : PositionListNode)
    (w : World) (multipv : nat) : list (UciCommand board) :=
  ((sent (engine w) ++ [CmdSetOption "MultiPV" multipv])
   ++ [CmdPosition (boards w (position self))])
  ++ [CmdGo depth].

(** The next link stands on the position of this link with the best move
    of this link pushed. *)
Definition plays_best_move (boards_ : loc -> board)
    (self : PositionListNode) : Prop :=
  match next_position self with
  | Some next =>
      exists bm m,
        best_move self = Some bm /\ bestmove bm = Some m
        /\ boards_ (position next) = push E (boards_ (position self)) m
  | None => True
  end.

End Node.

Arguments PositionListNode : clear implicits.
Arguments CandidateMove : clear implicits.
Arguments World : clear implicits.
Arguments Engine : clear implicits.
Arguments LogRecord : clear implicits.
Arguments M : clear implicits.

(** ** A small instance to run the methods on

    Boards are numbers, a move adds to the board.  The boards 3, 7, 22 and
    32 are game over (3 by checkmate, the others not), the side to move has
    two legal moves elsewhere.  The engine always plays the move 1 and
    reports two variations, except on the board 40, where it reports no
    best move. *)
Module Toy.

Definition is_over (b : nat) : bool :=
  Nat.eqb b 3 || Nat.eqb b 7 || Nat.eqb b 22 || Nat.eqb b 32.

Definition difference (b : nat) : Q :=
  if Nat.eqb b 21 || Nat.eqb b 31 then 3 # 10 else 0.

Definition count (b : nat) : Q := if Nat.eqb b 31 then 5 else 10.

Definition coordinates (m : nat) : string :=
  if Nat.eqb m 1 then "e2e4" else "d2d4".

(** The board of the last [position] command. *)
Fixpoint last_position (cmds : list (UciCommand nat)) (b : nat) : nat :=
  match cmds with
  | [] => b
  | CmdPosition b' :: cmds' => last_position cmds' b'
  | _ :: cmds' => last_position cmds' b
  end.

Definition search (cmds : list (UciCommand nat))
    : BestMove nat * Info nat :=
  let variations :=
    mkInfo (<[1 := mkScore (Some 30%Z) None]>
              (<[2 := mkScore (Some 10%Z) None]> ∅))
           (<[1 := [1]]> (<[2 := [2]]> ∅)) in
  if Nat.eqb (last_position cmds 0) 40
  then (mkBestMove None None, variations)
  else (mkBestMove (Some 1) (Some 1), variations).

Definition rules : Collaborators := {|
  Board := nat;
  Move := nat;
  push := fun b m => b + m;
  is_game_over := is_over;
  is_checkmate := fun b => Nat.eqb b 3;
  legal_moves_count := fun b => if is_over b then 0 else 2;
  san := fun _ m => coordinates m;
  fen := fun _ => "fen";
  board_str := fun _ => "board";
  uci := coordinates;
  utils_material_difference := difference;
  material_count := count;
  fullmove_string := fun _ => "1.";
  normalize_score := fun _ s => s;
  candidate_moves_ambiguous := fun _ => false;
  engine_search := search
|}.

(** The state in which the caller holds one board, [b], at location 0. *)
Definition start (b : nat) : World rules :=
  mkWorld (E := rules) (fun _ => b) 1
    (mkEngine (E := rules) [] (mkInfo ∅ ∅)) [].

(** A root node for the caller's board and the move 1, then [generate] at
    depth 10. *)
Definition puzzle (b : nat) (fuel : nat)
    : Outcome (PositionListNode rules * World rules) :=
  bind (__init__ 0 (1 : Move rules) true true) (generate fuel 10) (start b).

(** The world and the value of a run that succeeded. *)
Definition world_of {A} (r : Outcome (A * World rules)) : World rules :=
  match r with
  | Ok (_, w) => w
  | _ => start 0
  end.

Definition value_of {A} (r : Outcome (A * World rules)) (default : A) : A :=
  match r with
  | Ok (a, _) => a
  | _ => default
  end.

(** The root the constructor builds, and the state it leaves. *)
Definition root : PositionListNode rules :=
  mkNode (E := rules) 1 1 2 true None None None [] true.

Definition built (b : nat) : World rules :=
  world_of (__init__ 0 (1 : Move rules) true true (start b)).

(** The generated chain for the caller's board [b], and the state after. *)
Definition chain (b : nat) : PositionListNode rules :=
  value_of (puzzle b 5) root.

Definition after (b : nat) : World rules := world_of (puzzle b 5).

(** The steps of [generate] on the root for the board 0. *)
Definition logged : World rules := world_of (_log_position root (built 0)).

Definition with_best : PositionListNode rules :=
  (value_of (evaluate_best 10 root logged) (false, root)).2.

Definition evaluated : World rules :=
  world_of (evaluate_best 10 root logged).

Definition with_candidates : PositionListNode rules :=
  value_of (evaluate_candidate_moves 10 with_best evaluated) root.

Definition compared : World rules :=
  world_of (evaluate_candidate_moves 10 with_best evaluated).

(** The same rules with another engine. *)
Definition with_engine
    (answer : list (UciCommand nat) -> BestMove nat * Info nat)
    : Collaborators := {|
  Board := nat;
  Move := nat;
  push := fun b m => b + m;
  is_game_over := is_over;
  is_checkmate := fun b => Nat.eqb b 3;
  legal_moves_count := fun b => if is_over b then 0 else 2;
  san := fun _ m => coordinates m;
  fen := fun _ => "fen";
  board_str := fun _ => "board";
  uci := coordinates;
  utils_material_difference := difference;
  material_count := count;
  fullmove_string := fun _ => "1.";
  normalize_score := fun _ s => s;
  candidate_moves_ambiguous := fun _ => false;
  engine_search := answer
|}.

(** An engine that plays the move 1 everywhere. *)
Definition steady : Collaborators :=
  with_engine (fun _ =>
    (mkBestMove (Some 1) (Some 1),
     mkInfo (<[1 := mkScore (Some 30%Z) None]>
               (<[2 := mkScore (Some 10%Z) None]> ∅))
            (<[1 := [1]]> (<[2 := [2]]> ∅)))).

(** An engine that plays the move 1 and reports neither score nor
    variation. *)
Definition mute : Collaborators :=
  with_engine (fun _ => (mkBestMove (Some 1) None, mkInfo ∅ ∅)).

Definition mute_root : PositionListNode mute :=
  mkNode (E := mute) 1 1 2 true None None None [] true.

Definition mute_built : World mute :=
  mkWorld (E := mute) (fun l => if Nat.eqb l 2 then 1 else 0) 3
    (mkEngine (E := mute) [] (mkInfo ∅ ∅)) [].

Definition steady_start : World steady :=
  mkWorld (E := steady) (fun _ => 0) 1
    (mkEngine (E := steady) [] (mkInfo ∅ ∅)) [].

Definition steady_root : PositionListNode steady :=
  mkNode (E := steady) 1 1 2 true None None None [] true.

Definition steady_built : World steady :=
  match __init__ 0 (1 : Move steady) true true steady_start with
  | Ok (_, w) => w
  | _ => steady_start
  end.

Definition steady_chain : PositionListNode steady :=
  match generate 5 10 steady_root steady_built with
  | Ok (n, _) => n
  | _ => steady_root
  end.

Definition steady_after : World steady :=
  match generate 5 10 steady_root steady_built with
  | Ok (_, w) => w
  | _ => steady_start
  end.

End Toy.

(** * Properties *)

(** ** Numbers *)

Lemma Qgtb_true (x y : Q) : (y < x)%Q -> Qgtb x y = true.
Proof.
  intros H. unfold Qgtb. destruct (Qle_bool x y) eqn:Hle; [|done].
  apply Qle_bool_iff in Hle. exfalso. exact (Qlt_not_le _ _ H Hle).
Qed.

Lemma Qgtb_false (x y : Q) : (x <= y)%Q -> Qgtb x y = false.
Proof.
  intros H. unfold Qgtb. apply Qle_bool_iff in H. by rewrite H.
Qed.

Lemma Qltb_false (x y : Q) : (y <= x)%Q -> Qltb x y = false.
Proof.
  intros H. unfold Qltb. apply Qle_bool_iff in H. by rewrite H.
Qed.

Section Facts.

Context {E : Collaborators}.

Implicit Types (self next : PositionListNode E) (w : World E).
Implicit Types (bs : loc -> Board E).

(** ** One step of the recursive definitions *)

Lemma links_unfold self :
  links self = self :: match next_position self with
                       | Some next => links next
                       | None => []
                       end.
Proof. by destruct self. Qed.

Lemma tail_link_unfold self :
  tail_link self = match next_position self with
                   | Some next => tail_link next
                   | None => self
                   end.
Proof. by destruct self. Qed.

Lemma category_unfold bs self :
  category bs self
  = match next_position self with
    | Some next => category bs next
    | None => if is_game_over E (bs (position self)) then "Mate"
              else "Material"
    end.
Proof. by destruct self. Qed.

Lemma mate_reached_unfold self :
  mate_reached self
  = match next_position self with
    | Some next => if ambiguous self then self else mate_reached next
    | None => self
    end.
Proof. by destruct self. Qed.

Lemma material_reached_unfold self :
  material_reached self
  = match next_position self with
    | Some next => match next_position next with
                   | Some _ => material_reached next
                   | None => self
                   end
    | None => self
    end.
Proof. by destruct self. Qed.

(** ** The monad *)

Lemma bind_Ok {A B} (m : M E A) (f : A -> M E B) w r :
  bind m f w = Ok r -> exists a w1, m w = Ok (a, w1) /\ f a w1 = Ok r.
Proof.
  unfold bind. destruct (m w) as [[a w1]| |]; [|done..]. eauto.
Qed.

Lemma _log_position_Ok self w :
  _log_position self w = Ok (tt, add_log w (position_records (boards w) self)).
Proof.
  unfold _log_position, add_log, position_records, bind, read, logging_debug.
  simpl. by rewrite <- !app_assoc.
Qed.

(** ** [generate] on a position without legal moves *)

(** C10: on a link whose position has no legal moves, [generate] returns the
    link as it was; the engine is not queried and no board is allocated or
    changed, only the position is logged.  On a link that comes from the
    constructor this leaves [next_position] and [best_move] at [None] and
    [candidate_moves] empty. *)
Theorem generate_no_legal_moves fuel depth self w :
  legal_moves_count E (boards w (position self)) = 0 ->
  generate (S fuel) depth self w
  = Ok (self,
        mkWorld (boards w) (next_loc w) (engine w)
          (log w ++ position_records (boards w) self ++ [LogNoLegalMoves]))
  /\ forall p m turn strict_ w0,
       __init__ p m turn strict_ w0 = Ok (self, w) ->
       next_position self = None /\ best_move self = None
       /\ evaluation self = None /\ candidate_moves self = [].
Proof.
  intros Hcount. split.
  - cbn [generate]. unfold bind at 1. rewrite _log_position_Ok.
    unfold bind, read, add_log. cbn [boards next_loc engine log].
    rewrite Hcount. unfold logging_debug, ret. cbn [Nat.eqb boards next_loc engine log].
    by rewrite <- app_assoc.
  - intros p m turn strict_ w0 Hinit. unfold __init__, bind in Hinit.
    simpl in Hinit. by injection Hinit as <- _.
Qed.

(** ** [category] *)

Lemma tail_link_next self : next_position (tail_link self) = None.
Proof.
  induction self as [self Hnone|self next Hnext IH] using chain_ind;
    rewrite tail_link_unfold.
  - by rewrite Hnone.
  - by rewrite Hnext.
Qed.

(** C5: [category] descends to the tail of the chain, the link without
    [next_position], and answers ['Mate'] exactly when the position of the
    tail is game over, ['Material'] otherwise.  It is a function of the
    chain and the boards: run as a method it leaves the state as it is. *)
Theorem category_tail bs self :
  next_position (tail_link self) = None
  /\ category bs self
     = (if is_game_over E (bs (position (tail_link self))) then "Mate"
        else "Material")
  /\ (category bs self = "Mate"
      <-> is_game_over E (bs (position (tail_link self))) = true)
  /\ forall w, pure (fun bs' => Ok (category bs' self)) w
               = Ok (category (boards w) self, w).
Proof.
  split; [apply tail_link_next|].
  assert (Hcat : category bs self
                 = if is_game_over E (bs (position (tail_link self)))
                   then "Mate" else "Material").
  { induction self as [self Hnone|self next Hnext IH] using chain_ind;
      rewrite category_unfold, tail_link_unfold.
    - by rewrite Hnone.
    - by rewrite Hnext. }
  split; [exact Hcat|]. split; [|done].
  rewrite Hcat. by destruct (is_game_over E _).
Qed.

(** ** The steps of [generate] *)

(** Running the first action of a sequence that succeeded. *)
Ltac mstep H :=
  let a := fresh "a" in
  let w' := fresh "w" in
  let Ha := fresh "Hstep" in
  apply bind_Ok in H as (a & w' & Ha & H);
  try (first
    [ unfold read in Ha | unfold logging_debug in Ha
    | unfold engine_position, engine_send, bind, read in Ha
    | unfold engine_setoption_MultiPV, engine_send in Ha
    | unfold engine_info in Ha | unfold board_copy in Ha
    | unfold board_push in Ha | unfold ret in Ha ];
    injection Ha as <- <-).

Lemma same_boards_refl w : same_boards w w.
Proof. done. Qed.

Lemma same_boards_trans w1 w2 w3 :
  same_boards w1 w2 -> same_boards w2 w3 -> same_boards w1 w3.
Proof. unfold same_boards. intros [-> ->] [-> ->]. done. Qed.

Lemma extends_refl w : extends w w.
Proof. split; [lia|done]. Qed.

Lemma extends_trans w1 w2 w3 : extends w1 w2 -> extends w2 w3 -> extends w1 w3.
Proof.
  intros [Hle1 H1] [Hle2 H2]. split; [lia|].
  intros l Hl. rewrite H2 by lia. by apply H1.
Qed.

Lemma same_boards_extends w w' : same_boards w w' -> extends w w'.
Proof. intros [Hb Hn]. split; [lia|]. intros l _. by rewrite Hb. Qed.

Lemma __init___inv p m turn strict_ w self w1 :
  __init__ p m turn strict_ w = Ok (self, w1) ->
  self = mkNode (next_loc w) m (S (next_loc w)) turn None None None []
           strict_
  /\ next_loc w1 = S (S (next_loc w))
  /\ engine w1 = engine w /\ log w1 = log w
  /\ (forall l, l < next_loc w -> boards w1 l = boards w l)
  /\ boards w1 (next_loc w) = boards w p
  /\ boards w1 (S (next_loc w)) = push E (boards w p) m.
Proof.
  unfold __init__, bind. simpl. intros H. injection H as <- <-. simpl.
  split_and!; try done.
  - intros l Hl.
    destruct (Nat.eqb_spec l (S (next_loc w))); [lia|].
    by destruct (Nat.eqb_spec l (next_loc w)); [lia|].
  - destruct (Nat.eqb_spec (next_loc w) (S (next_loc w))); [lia|].
    by rewrite Nat.eqb_refl.
  - rewrite !Nat.eqb_refl.
    by destruct (Nat.eqb_spec p (next_loc w)) as [->|].
Qed.

Lemma _log_move_inv self m score w a w1 :
  _log_move self m score w = Ok (a, w1) ->
  same_boards w w1 /\ engine w1 = engine w.
Proof.
  unfold _log_move. intros H. mstep H.
  destruct (normalize_score E _ score) as [score'|]; [|done].
  destruct (mate score'); [by injection H as <- <-|].
  destruct (cp score'); [by injection H as <- <-|done].
Qed.

(** What [evaluate_best] leaves behind. *)
Lemma evaluate_best_inv depth self w has_best self1 w1 :
  evaluate_best depth self w = Ok ((has_best, self1), w1) ->
  initial_position self1 = initial_position self
  /\ initial_move self1 = initial_move self
  /\ position self1 = position self
  /\ player_turn self1 = player_turn self
  /\ candidate_moves self1 = candidate_moves self
  /\ strict self1 = strict self
  /\ extends w w1
  /\ if has_best then
       exists m,
         next_position self1
         = Some (mkNode (S (next_loc w)) m (S (S (next_loc w)))
                   (negb (player_turn self)) None None None [] (strict self))
         /\ (exists bm, best_move self1 = Some bm /\ bestmove bm = Some m)
         /\ (exists ev, evaluation self1 = Some ev)
         /\ next_loc w1 = S (S (S (next_loc w)))
         /\ boards w1 (S (next_loc w)) = boards w (position self)
         /\ boards w1 (S (S (next_loc w)))
            = push E (boards w (position self)) m
     else
       next_position self1 = next_position self
       /\ evaluation self1 = evaluation self
       /\ (exists bm, best_move self1 = Some bm /\ bestmove bm = None)
       /\ same_boards w w1.
Proof.
  unfold evaluate_best. intros H. mstep H. mstep H.
  apply bind_Ok in H as (bm & w2 & Hgo & H).
  unfold engine_go in Hgo. simpl in Hgo.
  destruct (engine_search E _) as [bm' i]. injection Hgo as <- <-.
  destruct (bestmove bm') as [m|] eqn:Hbm.
  - mstep H. simpl in H. destruct (info_score i !! 1) as [ev|]; [|done].
    mstep H. apply bind_Ok in H as (next & w3 & Hinit & H).
    apply __init___inv in Hinit as (-> & Hn & He & Hl & Hold & Hip & Hp).
    simpl in *. mstep H. rename a into u.
    apply _log_move_inv in Hstep as [[Hb3 Hn3] _].
    injection H as <- <- <-. simpl. split_and!; try done.
    + split; [lia|]. intros l Hl'. rewrite Hb3, Hold by lia.
      by destruct (Nat.eqb_spec l (next_loc w)); [lia|].
    + exists m. split_and!; eauto; try lia.
      * by rewrite Hb3, Hip, Nat.eqb_refl.
      * by rewrite Hb3, Hp, Nat.eqb_refl.
  - mstep H. injection H as <- <- <-. simpl.
    split_and!; eauto; [by split; [simpl; lia|]|done].
Qed.

Lemma set_candidate_moves_twice self l1 l2 :
  set_candidate_moves (set_candidate_moves self l1) l2
  = set_candidate_moves self l2.
Proof. done. Qed.

Lemma set_candidate_moves_same self :
  set_candidate_moves self (candidate_moves self) = self.
Proof. by destruct self. Qed.

Lemma candidate_step_inv i_ self i w self' w' :
  candidate_step i_ self i w = Ok (self', w') ->
  same_boards w w'
  /\ exists c,
       self' = set_candidate_moves self (candidate_moves self ++ [c]).
Proof.
  unfold candidate_step. intros H.
  destruct (info_pv i_ !! (i + 1)) as [pv|]; [|done].
  destruct (pv !! 0) as [m|]; [|done].
  mstep H. apply _log_move_inv in Hstep as [Hsame _].
  mstep H. injection H as <- <-. eauto.
Qed.

Lemma for_range_inv i_ range : forall self w self' w',
  for_range (candidate_step i_) self range w = Ok (self', w') ->
  same_boards w w'
  /\ exists new,
       self' = set_candidate_moves self (candidate_moves self ++ new)
       /\ length new = length range.
Proof.
  induction range as [|i range IH]; intros self w self' w' H; simpl in H.
  - injection H as <- <-. split; [done|]. exists [].
    by rewrite app_nil_r, set_candidate_moves_same.
  - apply bind_Ok in H as (self1 & w1 & Hstep & H).
    apply candidate_step_inv in Hstep as (Hsame1 & c & ->).
    apply IH in H as (Hsame2 & new & -> & Hlen).
    split; [by eapply same_boards_trans|].
    exists (c :: new). simpl.
    rewrite set_candidate_moves_twice, <- app_assoc. simpl.
    split; [done|]. by rewrite Hlen.
Qed.

(** What [evaluate_candidate_moves] leaves behind: only [candidate_moves]
    has changed, by as many entries as the engine was asked for. *)
Lemma evaluate_candidate_moves_inv depth self w self' w' :
  evaluate_candidate_moves depth self w = Ok (self', w') ->
  same_boards w w'
  /\ exists new,
       self' = set_candidate_moves self (candidate_moves self ++ new)
       /\ length new
          = Nat.min 3 (legal_moves_count E (boards w (position self))).
Proof.
  unfold evaluate_candidate_moves. intros H. mstep H.
  destruct (Nat.eqb_spec
              (Nat.min 3 (legal_moves_count E (boards w (position self)))) 0)
    as [Hz|Hnz].
  - injection H as <- <-. split; [done|]. exists [].
    by rewrite app_nil_r, set_candidate_moves_same, Hz.
  - mstep H. mstep H. mstep H.
    apply bind_Ok in H as (bm & w2 & Hgo & H).
    unfold engine_go in Hgo. simpl in Hgo.
    destruct (engine_search E _) as [bm' i]. injection Hgo as <- <-.
    mstep H. apply bind_Ok in H as (self1 & w3 & Hloop & H).
    apply for_range_inv in Hloop as (Hsame & new & -> & Hlen).
    mstep H. injection H as <- <-.
    split; [by destruct Hsame|].
    exists new. by rewrite Hlen, length_seq.
Qed.

(** ** The decision of [generate] *)

(** Running [generate] up to its decision, given the results of its steps. *)
Local Ltac generate_prefix Hlog Hw1 Hbest Hcand Hturn2 :=
  cbn [generate]; unfold bind at 1; rewrite Hlog;
  unfold bind at 1; unfold read at 1; rewrite Hw1;
  match goal with
  | |- context [Nat.eqb ?n 0] => destruct (Nat.eqb_spec n 0) as [|_]; [done|]
  end;
  unfold bind at 1; rewrite Hbest; cbn [negb];
  unfold bind at 1; rewrite Hcand; rewrite Hturn2; cbn [negb].

(** C1: on a link with legal moves on which [evaluate_best] found a best
    move and the candidate moves were stored, [generate] goes on with
    [generate] on the next link whenever [player_turn] is false; when
    [player_turn] is true it does so if the link is not ambiguous and
    neither its position nor the position of the next link is game over,
    and otherwise it returns without a further call (the result does not
    depend on the fuel that is left). *)
Theorem generate_recursion fuel depth self w w1 self1 w2 self2 w3 :
  legal_moves_count E (boards w (position self)) <> 0 ->
  _log_position self w = Ok (tt, w1) ->
  evaluate_best depth self w1 = Ok ((true, self1), w2) ->
  evaluate_candidate_moves depth self1 w2 = Ok (self2, w3) ->
  exists next,
    next_position self2 = Some next
    /\ let unambiguous_and_open :=
         negb (ambiguous self2)
         && negb (is_game_over E (boards w3 (position self2)))
         && negb (is_game_over E (boards w3 (position next))) in
       if negb (player_turn self) || unambiguous_and_open then
         generate (S fuel) depth self w
         = bind (generate fuel depth next)
             (fun next' => ret (set_next_position self2 (Some next')))
             (add_log w3 [LogGoingDeeper])
       else
         exists why,
           generate (S fuel) depth self w
           = Ok (self2, add_log w3 [LogNotGoingDeeper why]).
Proof.
  intros Hcount Hlog Hbest Hcand.
  pose proof (evaluate_best_inv _ _ _ _ _ _ Hbest)
    as (_ & _ & _ & Hturn & _ & _ & _ & m & Hnext & _).
  pose proof (evaluate_candidate_moves_inv _ _ _ _ _ Hcand)
    as (_ & new & Hself2 & _).
  assert (Hnext2 : next_position self2 = next_position self1)
    by (by rewrite Hself2).
  assert (Hturn2 : player_turn self2 = player_turn self)
    by (by rewrite Hself2).
  rewrite Hnext in Hnext2. clear Hnext.
  match type of Hnext2 with _ = Some ?n => generalize dependent n end.
  intros next Hnext2. exists next. split; [exact Hnext2|].
  assert (Hw1 : boards w1 = boards w).
  { rewrite _log_position_Ok in Hlog. by injection Hlog as <-. }
  cbv zeta.
  destruct (player_turn self) eqn:Hpt; cbn [negb orb].
  - destruct (ambiguous self2) eqn:Hamb; cbn [negb andb].
    { exists "ambiguous". generate_prefix Hlog Hw1 Hbest Hcand Hturn2.
      rewrite Hamb. done. }
    destruct (is_game_over E (boards w3 (position self2))) eqn:Hover1;
      cbn [negb andb].
    { exists "game over". generate_prefix Hlog Hw1 Hbest Hcand Hturn2.
      rewrite Hamb. unfold bind, pure, game_over. rewrite Hover1.
      cbn [obind]. unfold ret. cbn [negb]. by rewrite Hover1. }
    destruct (is_game_over E (boards w3 (position next))) eqn:Hover2;
      cbn [negb andb].
    { exists "game over". generate_prefix Hlog Hw1 Hbest Hcand Hturn2.
      rewrite Hamb. unfold bind at 1. unfold bind at 1.
      unfold pure at 1. unfold game_over at 1.
      rewrite Hover1, Hnext2, Hover2. cbn [obind]. unfold ret at 1.
      cbn [negb]. unfold bind at 1. unfold bind at 1.
      unfold pure at 1. unfold game_over at 1.
      rewrite Hover1, Hnext2, Hover2. done. }
    generate_prefix Hlog Hw1 Hbest Hcand Hturn2.
    rewrite Hamb. unfold bind at 1. unfold bind at 1.
    unfold pure at 1. unfold game_over at 1.
    rewrite Hover1, Hnext2, Hover2. cbn [obind]. unfold ret at 1.
    cbn [negb]. unfold bind at 1. by unfold logging_debug at 1.
  - generate_prefix Hlog Hw1 Hbest Hcand Hturn2.
    unfold bind at 1. unfold ret at 1. unfold bind at 1.
    unfold logging_debug at 1. by rewrite Hnext2.
Qed.

(** ** What [generate] preserves *)

Lemma pure_inv {A} (f : (loc -> Board E) -> Outcome A) w a w' :
  pure f w = Ok (a, w') -> w' = w.
Proof.
  unfold pure. destruct (f (boards w)); simpl; [|done..].
  by intros [= _ <-].
Qed.

Lemma owned_extends w w' self : owned w self -> extends w w' -> owned w' self.
Proof.
  intros [[Hip Hp] Hok] [Hle Hold]. split; [split; lia|].
  unfold link_ok. by rewrite !Hold.
Qed.

Lemma candidates_bounded_extends w w' self :
  allocated w self -> extends w w' ->
  candidates_bounded (boards w) self -> candidates_bounded (boards w') self.
Proof.
  intros [_ Hp] [_ Hold]. unfold candidates_bounded. by rewrite Hold.
Qed.

Lemma extends_add_log w rs : extends w (add_log w rs).
Proof. split; [simpl; lia|done]. Qed.

Lemma generate_inv fuel : forall depth self w self' w',
  generate fuel depth self w = Ok (self', w') ->
  Forall (owned w) (links self) ->
  extends w w'
  /\ initial_position self' = initial_position self
  /\ initial_move self' = initial_move self
  /\ position self' = position self
  /\ player_turn self' = player_turn self
  /\ strict self' = strict self
  /\ Forall (owned w') (links self')
  /\ (next_position self = None -> candidate_moves self = [] ->
      Forall (candidates_bounded (boards w')) (links self')).
Proof.
  induction fuel as [|fuel IH]; intros depth self w self' w' H Hown; [done|].
  cbn [generate] in H.
  apply bind_Ok in H as ([] & w1 & Hlog & H).
  rewrite _log_position_Ok in Hlog. injection Hlog as <-.
  pose proof (extends_add_log w (position_records (boards w) self)) as Hext1.
  set (w1 := add_log w _) in *.
  assert (Hsame1 : same_boards w w1) by done.
  clearbody w1. destruct Hsame1 as [Hb1 Hn1]. mstep H. rewrite Hb1 in H.
  assert (Hself : owned w self).
  { rewrite links_unfold in Hown. by apply Forall_cons_1 in Hown as [? _]. }
  destruct (Nat.eqb_spec (legal_moves_count E (boards w (position self))) 0)
    as [Hz|Hnz].
  { (* no legal moves *)
    mstep H. injection H as <- <-.
    assert (Hext : extends w (add_log w1 [LogNoLegalMoves]))
      by (by apply extends_trans with w1; [|apply extends_add_log]).
    split_and!; try done.
    - eapply Forall_impl; [exact Hown|]. intros l Hl.
      by apply owned_extends with w.
    - intros Hnone Hnil. rewrite links_unfold, Hnone.
      apply Forall_cons. split; [|done].
      unfold candidates_bounded. rewrite Hnil. simpl. lia. }
  apply bind_Ok in H as ([has_best self1] & w2 & Hbest & H).
  apply evaluate_best_inv in Hbest
    as (Hip1 & Him1 & Hp1 & Hturn1 & Hcm1 & Hst1 & Hext2 & Hbest).
  destruct has_best; cbn [negb] in H.
  2: { (* the engine has no best move *)
    destruct Hbest as (Hnext1 & _ & _ & Hsame2).
    mstep H. injection H as <- <-.
    assert (Hext : extends w (add_log w2 [LogNotDeeperGameOver])).
    { apply extends_trans with w1; [done|].
      apply extends_trans with w2; [done|apply extends_add_log]. }
    split_and!; try done.
    - rewrite links_unfold, Hnext1. rewrite links_unfold in Hown.
      apply Forall_cons_1 in Hown as [_ Hrest]. apply Forall_cons. split.
      + apply owned_extends with w; [|done].
        destruct Hself as [[? ?] Hok]. unfold owned, allocated, link_ok.
        by rewrite Hip1, Him1, Hp1.
      + eapply Forall_impl; [exact Hrest|]. intros l Hl.
        by apply owned_extends with w.
    - intros Hnone Hnil. rewrite links_unfold, Hnext1, Hnone.
      apply Forall_cons. split; [|done].
      unfold candidates_bounded. rewrite Hcm1, Hnil. simpl. lia. }
  (* a best move was found *)
  destruct Hbest as (m & Hnext1 & _ & _ & Hloc2 & Hbip & Hbp).
  rewrite Hn1 in Hnext1, Hloc2, Hbip, Hbp. rewrite Hb1 in Hbip, Hbp.
  set (next := mkNode _ _ _ _ _ _ _ _ _) in Hnext1.
  apply bind_Ok in H as (self2 & w3 & Hcand & H).
  apply evaluate_candidate_moves_inv in Hcand
    as ([Hb3 Hn3] & new & Hself2 & Hlen).
  assert (Hfields : initial_position self2 = initial_position self
                    /\ initial_move self2 = initial_move self
                    /\ position self2 = position self
                    /\ player_turn self2 = player_turn self
                    /\ strict self2 = strict self
                    /\ next_position self2 = Some next
                    /\ candidate_moves self2 = candidate_moves self ++ new).
  { rewrite Hself2. simpl. by rewrite Hip1, Him1, Hp1, Hturn1, Hst1, Hcm1. }
  destruct Hfields as (Hip2 & Him2 & Hp2 & Hturn2 & Hst2 & Hnext2 & Hcm2).
  assert (Hext3 : extends w w3).
  { apply extends_trans with w1; [done|].
    apply extends_trans with w2; [done|]. by apply same_boards_extends. }
  assert (Hown2 : owned w3 self2).
  { apply owned_extends with w; [|done].
    destruct Hself as [[? ?] Hok]. unfold owned, allocated, link_ok.
    by rewrite Hip2, Him2, Hp2. }
  assert (Hownn : owned w3 next).
  { unfold owned, allocated, link_ok, next. simpl.
    rewrite Hn3, Hb3, Hloc2, Hbip, Hbp. split; [lia|done]. }
  assert (Hbound2 : candidate_moves self = [] ->
                    candidates_bounded (boards w3) self2).
  { intros Hnil. unfold candidates_bounded.
    rewrite Hcm2, Hnil, Hp2, Hb3. simpl. rewrite Hlen, Hp1.
    destruct Hext2 as [_ Hold2]. rewrite Hold2; [done|].
    destruct Hself as [[_ Hlt] _]. simpl. lia. }
  assert (Hboundn : candidates_bounded (boards w3) next).
  { unfold candidates_bounded, next. simpl. lia. }
  apply bind_Ok in H as (deeper & w4 & Hdec & H).
  assert (w4 = w3) as ->.
  { destruct (negb (player_turn self2)); [by injection Hdec as _ <-|].
    destruct (ambiguous self2); [by injection Hdec as _ <-|].
    apply bind_Ok in Hdec as (g & w5 & Hg & Hdec).
    apply pure_inv in Hg as ->. by injection Hdec as _ <-. }
  clear Hdec. destruct deeper.
  - (* going deeper *)
    mstep H. rewrite Hnext2 in H.
    apply bind_Ok in H as (next' & w5 & Hrec & H). injection H as <- <-.
    apply IH in Hrec
      as (Hext5 & _ & _ & _ & _ & _ & Hown5 & Hbound5).
    2: { rewrite links_unfold. simpl. apply Forall_cons. split; [|done].
         by apply owned_extends with w3; [|apply extends_add_log]. }
    assert (Hext35 : extends w3 w5)
      by (by apply extends_trans with (add_log w3 [LogGoingDeeper]);
            [apply extends_add_log|]).
    split_and!; try done.
    + by apply extends_trans with w3.
    + rewrite links_unfold. simpl. apply Forall_cons. split; [|done].
      apply owned_extends with w3; [|done].
      destruct Hown2 as [[? ?] Hok]. by split; [split|].
    + intros _ Hnil. rewrite links_unfold. simpl. apply Forall_cons. split.
      * apply candidates_bounded_extends with w3; [by destruct Hown2|done|].
        by apply Hbound2.
      * by apply Hbound5.
  - (* not going deeper *)
    apply bind_Ok in H as (why & w5 & Hwhy & H).
    assert (w5 = w3) as ->.
    { destruct (ambiguous self2); [by injection Hwhy as _ <-|].
      apply bind_Ok in Hwhy as (g & w6 & Hg & Hwhy).
      apply pure_inv in Hg as ->. by injection Hwhy as _ <-. }
    mstep H. injection H as <- <-.
    assert (Hext35 : extends w3 (add_log w3 [LogNotGoingDeeper why]))
      by apply extends_add_log.
    split_and!; try done.
    + rewrite links_unfold, Hnext2, links_unfold. simpl.
      apply Forall_cons. split; [by apply owned_extends with w3|].
      apply Forall_cons. split; [by apply owned_extends with w3|done].
    + intros _ Hnil. rewrite links_unfold, Hnext2, links_unfold. simpl.
      apply Forall_cons. split; [by apply Hbound2|].
      apply Forall_cons. split; [done|done].
Qed.

(** ** The size of [candidate_moves] *)

Lemma __init___owned p m turn strict_ w0 root w1 :
  __init__ p m turn strict_ w0 = Ok (root, w1) ->
  Forall (owned w1) (links root)
  /\ next_position root = None /\ candidate_moves root = [].
Proof.
  intros Hinit.
  apply __init___inv in Hinit as (-> & Hn & _ & _ & _ & Hip & Hp).
  split; [|done]. rewrite links_unfold. simpl.
  apply Forall_cons. split; [|done].
  unfold owned, allocated, link_ok. simpl. rewrite Hn, Hip, Hp.
  split; [lia|done].
Qed.

(** C8: in a chain generated from a newly constructed root, every link has
    at most [min(3, legal_moves.count())] candidate moves, the count taken
    in the position of the link. *)
Theorem candidate_moves_bounded fuel depth p m turn strict_ w0 root w1
    root' w' :
  __init__ p m turn strict_ w0 = Ok (root, w1) ->
  generate fuel depth root w1 = Ok (root', w') ->
  Forall (fun link =>
            length (candidate_moves link)
            <= Nat.min 3 (legal_moves_count E (boards w' (position link))))
    (links root').
Proof.
  intros Hinit Hgen.
  apply __init___owned in Hinit as (Hown & Hnone & Hnil).
  apply generate_inv in Hgen; [|done].
  destruct Hgen as (_ & _ & _ & _ & _ & _ & _ & Hbound). by apply Hbound.
Qed.

(** ** The boards of a link *)

(** C9: the constructor copies the caller's board twice and pushes the move
    on the second copy only, so [position] holds [initial_position] with
    [initial_move] pushed, on two new boards that the caller's board is not
    one of; a later change of the caller's board does not reach them.
    [generate] changes no board that exists, leaves the three attributes of
    the link as they are, and every link of the resulting chain has the same
    property; the read-only methods ([move_list], [category], [is_complete],
    [game_over], run through [pure]) leave the state as it is. *)
Theorem position_is_initial_position_pushed p m turn strict_ w0 root w1 :
  p < next_loc w0 ->
  __init__ p m turn strict_ w0 = Ok (root, w1) ->
  (initial_move root = m
   /\ boards w1 (initial_position root) = boards w0 p
   /\ boards w1 (position root) = push E (boards w0 p) m
   /\ owned w1 root
   /\ initial_position root <> p /\ position root <> p
   /\ initial_position root <> position root
   /\ boards w1 p = boards w0 p)
  /\ (forall b, owned (caller_writes p b w1) root
                /\ boards (caller_writes p b w1) (initial_position root)
                   = boards w0 p
                /\ boards (caller_writes p b w1) (position root)
                   = push E (boards w0 p) m)
  /\ (forall fuel depth self w self' w',
        Forall (owned w) (links self) ->
        generate fuel depth self w = Ok (self', w') ->
        (forall l, l < next_loc w -> boards w' l = boards w l)
        /\ initial_position self' = initial_position self
        /\ initial_move self' = initial_move self
        /\ position self' = position self
        /\ Forall (owned w') (links self'))
  /\ (forall A (method : (loc -> Board E) -> Outcome A) w a w',
        pure method w = Ok (a, w') -> w' = w).
Proof.
  intros Hp Hinit.
  apply __init___inv in Hinit as (-> & Hn & _ & _ & Hold & Hbip & Hbp).
  cbn [initial_move initial_position position].
  split_and!; try done; try lia.
  - unfold owned, allocated, link_ok. simpl. rewrite Hn, Hbip, Hbp.
    split; [lia|done].
  - by apply Hold.
  - intros b. unfold owned, allocated, link_ok, caller_writes.
    cbn [boards next_loc initial_position position initial_move].
    destruct (Nat.eqb_spec (next_loc w0) p); [lia|].
    destruct (Nat.eqb_spec (S (next_loc w0)) p); [lia|].
    rewrite Hn, Hbip, Hbp. split_and!; try done; lia.
  - intros fuel depth self w self' w' Hown Hgen.
    apply generate_inv in Hgen; [|done].
    destruct Hgen as ([_ Hext] & Hip' & Him' & Hp' & _ & _ & Hown' & _).
    done.
  - intros A method w a w'. apply pure_inv.
Qed.

(** ** [game_over] *)


(** ** [is_complete] *)

Lemma is_complete_unfold bs self category_ white_to_move d :
  is_complete bs self category_ white_to_move d
  = match next_position self with
    | Some next =>
        if String.eqb category_ "Mate" && negb (ambiguous self) then
          is_complete bs next category_ white_to_move d
        else if String.eqb category_ "Material"
                && match next_position next with
                   | Some _ => true
                   | None => false
                   end then
          is_complete bs next category_ white_to_move d
        else is_complete_here bs self category_ white_to_move d
    | None => is_complete_here bs self category_ white_to_move d
    end.
Proof. by destruct self. Qed.

(** For ['Mate'] the answer is [is_game_over] of the position at which the
    descent stops. *)
Lemma is_complete_Mate bs self white_to_move d :
  is_complete bs self "Mate" white_to_move d
  = Ok (is_game_over E (bs (position (mate_reached self)))).
Proof.
  induction self as [self Hnone|self next Hnext IH] using chain_ind;
    rewrite is_complete_unfold, mate_reached_unfold.
  - by rewrite Hnone.
  - rewrite Hnext. simpl. by destruct (ambiguous self).
Qed.

Lemma is_complete_Material bs self white_to_move d :
  is_complete bs self "Material" white_to_move d
  = is_complete_here bs (material_reached self) "Material" white_to_move d.
Proof.
  induction self as [self Hnone|self next Hnext IH] using chain_ind;
    rewrite is_complete_unfold, material_reached_unfold.
  - by rewrite Hnone.
  - rewrite Hnext. simpl. by destruct (next_position next).
Qed.

(** C4, as the code has it: the start counts as decided on the side of the
    player only.  With White to move a starting material difference of 2 or
    more, and with Black to move one of -2 or less, makes
    [is_complete('Material', ...)] answer [False] on every chain. *)
Theorem is_complete_Material_decided_start bs self (white_to_move : bool)
    (d : Q) :
  (if white_to_move then (2 <= d)%Q else (d <= - (2))%Q) ->
  is_complete bs self "Material" white_to_move d = Ok false.
Proof.
  intros Hd. rewrite is_complete_Material. unfold is_complete_here. simpl.
  destruct white_to_move; cbv iota in Hd.
  - by rewrite (Qltb_false d 2 Hd), andb_false_r.
  - by rewrite (Qgtb_false d (- (2)) Hd), andb_false_r.
Qed.

(** C6: White to move at the start, starting material difference 0, a
    material difference of 0.3 at the link where the descent stops and an
    evaluation there that is not a mate score: with a material count of 10
    the answer is [True], with a material count of 5 it is [False]. *)
Theorem is_complete_Material_scenario bs self ev :
  (material_difference bs (material_reached self) == 3 # 10)%Q ->
  evaluation (material_reached self) = Some ev ->
  mate ev = None ->
  ((material_count E (bs (position (material_reached self))) == 10)%Q ->
   is_complete bs self "Material" true 0 = Ok true)
  /\ ((material_count E (bs (position (material_reached self))) == 5)%Q ->
      is_complete bs self "Material" true 0 = Ok false).
Proof.
  intros Hdiff Hev Hmate.
  assert (Hhere :
    is_complete bs self "Material" true 0
    = Ok (Qgtb (material_count E (bs (position (material_reached self)))) 6)).
  { rewrite is_complete_Material. unfold is_complete_here.
    rewrite String.eqb_refl. cbv beta iota zeta.
    rewrite Hev, Hmate. rewrite (Qgtb_true _ (2 # 10)).
    2: { by rewrite Hdiff. }
    rewrite (Qgtb_true _ (1 # 10)).
    2: { by rewrite Hdiff. }
    done. }
  split; intros Hcount; rewrite Hhere.
  - f_equal. apply Qgtb_true. by rewrite Hcount.
  - f_equal. apply Qgtb_false. by rewrite Hcount.
Qed.

(** ** [move_list] *)

Lemma move_list_unfold bs self :
  move_list bs self
  = let own_move :=
      match best_move self with
      | None => Raise AttributeError
      | Some bm => match bestmove bm with
                   | None => Raise AttributeError
                   | Some m => Ok (uci E m)
                   end
      end in
    let stop :=
      match best_move self with
      | Some _ => obind own_move (fun u => Ok [u])
      | None => Ok []
      end in
    match next_position self with
    | None => stop
    | Some next =>
        if ambiguous next || is_game_over E (bs (position next))
        then stop
        else obind own_move (fun u =>
             obind (move_list bs next) (fun rest => Ok (u :: rest)))
    end.
Proof. by destruct self. Qed.

(** Where the engine had a move on every link, [move_list] returns the
    line as described. *)
Lemma move_list_forced_line bs self :
  Forall has_move (links self) ->
  move_list bs self = Ok (forced_line bs self).
Proof.
  induction self as [self Hnone|self next Hnext IH] using chain_ind;
    rewrite links_unfold; intros Hall;
    apply Forall_cons_1 in Hall as [Hself Hrest];
    rewrite move_list_unfold; unfold has_move in Hself;
    destruct self as [ip im p pt bm ev nx cm st]; simpl in *; subst nx.
  - destruct bm as [[[m|] po]|]; simpl in *; try done;
      try (by destruct Hself).
  - destruct bm as [[[m|] po]|]; simpl in *; try done;
      try (by destruct Hself).
    destruct (ambiguous next || is_game_over E (bs (position next)));
      [done|].
    by rewrite (IH Hrest).
Qed.

(** A link on which the engine was asked and had no best move: the
    attribute [best_move] is set, its [bestmove] is [None]. *)
Lemma move_list_without_bestmove bs self bm :
  next_position self = None ->
  best_move self = Some bm ->
  bestmove bm = None ->
  move_list bs self = Raise AttributeError.
Proof.
  intros Hnone Hbm Hm. rewrite move_list_unfold. simpl.
  by rewrite Hnone, Hbm, Hm.
Qed.

(** ** The cases of [generate] *)

(** A call of [generate] that returns went one of four ways. *)
Lemma generate_S_inv fuel depth self w self' w' :
  generate (S fuel) depth self w = Ok (self', w') ->
  let w1 := add_log w (position_records (boards w) self) in
  (legal_moves_count E (boards w (position self)) = 0
   /\ self' = self /\ w' = add_log w1 [LogNoLegalMoves])
  \/ (exists w2,
        evaluate_best depth self w1 = Ok ((false, self'), w2)
        /\ w' = add_log w2 [LogNotDeeperGameOver])
  \/ (exists self1 w2 self2 w3 next,
        evaluate_best depth self w1 = Ok ((true, self1), w2)
        /\ evaluate_candidate_moves depth self1 w2 = Ok (self2, w3)
        /\ next_position self2 = Some next
        /\ ((exists why,
               self' = self2 /\ w' = add_log w3 [LogNotGoingDeeper why])
            \/ (exists next',
                  generate fuel depth next (add_log w3 [LogGoingDeeper])
                  = Ok (next', w')
                  /\ self' = set_next_position self2 (Some next')))).
Proof.
  intros H w1. cbn [generate] in H.
  apply bind_Ok in H as ([] & w1' & Hlog & H).
  rewrite _log_position_Ok in Hlog. injection Hlog as <-. fold w1 in H.
  mstep H. change (boards w1) with (boards w) in H.
  destruct (Nat.eqb_spec (legal_moves_count E (boards w (position self))) 0)
    as [Hz|Hnz].
  { mstep H. injection H as <- <-. by left. }
  right. apply bind_Ok in H as ([has_best self1] & w2 & Hbest & H).
  destruct has_best; cbn [negb] in H.
  2: { mstep H. injection H as <- <-. left. by exists w2. }
  right. apply bind_Ok in H as (self2 & w3 & Hcand & H).
  destruct (evaluate_best_inv _ _ _ _ _ _ Hbest)
    as (_ & _ & _ & _ & _ & _ & _ & m & Hnext1 & _).
  destruct (evaluate_candidate_moves_inv _ _ _ _ _ Hcand)
    as (_ & new & Hself2 & _).
  assert (Hnext2 : next_position self2 = next_position self1)
    by (by rewrite Hself2).
  rewrite Hnext1 in Hnext2.
  exists self1, w2, self2, w3. eexists. split_and!; [done..|].
  apply bind_Ok in H as (deeper & w4 & Hdec & H).
  assert (w4 = w3) as ->.
  { destruct (negb (player_turn self2)); [by injection Hdec as _ <-|].
    destruct (ambiguous self2); [by injection Hdec as _ <-|].
    apply bind_Ok in Hdec as (g & w5 & Hg & Hdec).
    apply pure_inv in Hg as ->. by injection Hdec as _ <-. }
  clear Hdec. destruct deeper.
  - right. mstep H. rewrite Hnext2 in H.
    apply bind_Ok in H as (next' & w5 & Hrec & H). injection H as <- <-.
    by exists next'.
  - left. apply bind_Ok in H as (why & w5 & Hwhy & H).
    assert (w5 = w3) as ->.
    { destruct (ambiguous self2); [by injection Hwhy as _ <-|].
      apply bind_Ok in Hwhy as (g & w6 & Hg & Hwhy).
      apply pure_inv in Hg as ->. by injection Hwhy as _ <-. }
    mstep H. injection H as <- <-. by exists why.
Qed.

(** ** The engine's answers *)

(** X1: when the engine answers without a best move, [evaluate_best]
    returns [False]; the answer is stored in [best_move], nothing else of
    the link changes, no board is allocated, and the log has the two
    records of the attempt. *)
Theorem evaluate_best_without_best_move depth self w bm i :
  engine_search E (best_commands depth self w) = (bm, i) ->
  bestmove bm = None ->
  evaluate_best depth self w
  = Ok ((false, set_best_move self (Some bm)),
        mkWorld (boards w) (next_loc w)
          (mkEngine (best_commands depth self w) i)
          (log w ++ [LogEvaluatingBest depth; LogNoBestMove])).
Proof.
  intros Hsearch Hbm.
  unfold evaluate_best, bind, logging_debug, engine_position, engine_send,
    bind, read, engine_go.
  cbn [boards next_loc engine log sent info].
  fold (best_commands depth self w). rewrite Hsearch, Hbm.
  unfold ret. cbn [boards next_loc engine log]. by rewrite <- app_assoc.
Qed.

(** X2: when the engine answers with a best move and its [info] has no
    score for the first variation, [evaluate_best] raises [KeyError]. *)
Theorem evaluate_best_without_score depth self w bm i m :
  engine_search E (best_commands depth self w) = (bm, i) ->
  bestmove bm = Some m ->
  info_score i !! 1 = None ->
  evaluate_best depth self w = Raise KeyError.
Proof.
  intros Hsearch Hbm Hscore.
  unfold evaluate_best, bind, logging_debug, engine_position, engine_send,
    bind, read, engine_go.
  cbn [boards next_loc engine log sent info].
  fold (best_commands depth self w). rewrite Hsearch, Hbm.
  unfold engine_info. cbn [engine info]. by rewrite Hscore.
Qed.

(** What [evaluate_best] sent and what it stored. *)
Lemma evaluate_best_sent depth self w has_best self1 w1 :
  evaluate_best depth self w = Ok ((has_best, self1), w1) ->
  sent (engine w1) = best_commands depth self w
  /\ best_move self1
     = Some (engine_search E (best_commands depth self w)).1.
Proof.
  unfold evaluate_best. intros H. mstep H. mstep H.
  apply bind_Ok in H as (bm & w2 & Hgo & H).
  unfold engine_go in Hgo. cbn [boards next_loc engine log sent info] in Hgo.
  fold (best_commands depth self w) in Hgo.
  destruct (engine_search E _) as [bm' i]. injection Hgo as <- <-.
  destruct (bestmove bm') as [m|] eqn:Hbm.
  - mstep H. cbn [engine info] in H.
    destruct (info_score i !! 1) as [ev|]; [|done].
    mstep H. apply bind_Ok in H as (next & w3 & Hinit & H).
    apply __init___inv in Hinit as (-> & _ & He & _).
    mstep H. apply _log_move_inv in Hstep as [_ He'].
    injection H as <- <- <-. by rewrite He', He.
  - mstep H. by injection H as <- <- <-.
Qed.

(** ** The candidate moves *)

Lemma candidate_step_spec i_ self i w self' w' :
  candidate_step i_ self i w = Ok (self', w') ->
  same_boards w w' /\ engine w' = engine w
  /\ exists c,
       candidate_of i_ (boards w (position self)) i = Some c
       /\ self' = set_candidate_moves self (candidate_moves self ++ [c]).
Proof.
  unfold candidate_step, candidate_of. intros H.
  destruct (info_pv i_ !! (i + 1)) as [pv|]; [|done].
  destruct pv as [|m pv]; [done|]. simpl in H.
  mstep H. apply _log_move_inv in Hstep as [Hsame He].
  mstep H. injection H as <- <-. destruct Hsame as [Hb Hn].
  split_and!; try done. rewrite Hb. eauto.
Qed.

Lemma for_range_spec i_ range : forall self w self' w',
  for_range (candidate_step i_) self range w = Ok (self', w') ->
  same_boards w w' /\ engine w' = engine w
  /\ exists new,
       mapM (candidate_of i_ (boards w (position self))) range = Some new
       /\ self' = set_candidate_moves self (candidate_moves self ++ new).
Proof.
  induction range as [|i range IH]; intros self w self' w' H; simpl in H.
  - injection H as <- <-. split_and!; try done. exists [].
    by rewrite app_nil_r, set_candidate_moves_same.
  - apply bind_Ok in H as (self1 & w1 & Hstep & H).
    apply candidate_step_spec in Hstep as (Hsame1 & He1 & c & Hc & ->).
    apply IH in H as (Hsame2 & He2 & new & Hnew & ->).
    split_and!; [by eapply same_boards_trans|by rewrite He2|].
    exists (c :: new). destruct Hsame1 as [Hb1 _].
    cbn [position set_candidate_moves candidate_moves] in *.
    rewrite Hb1 in Hnew. split.
    + simpl. by rewrite Hc, Hnew.
    + by rewrite set_candidate_moves_twice, <- app_assoc.
Qed.

(** X3: a call of [evaluate_candidate_moves] that returns has asked for
    [min(3, legal_moves.count())] variations, searched once, and set
    [MultiPV] back to 1 (it has sent nothing when there is no legal move);
    it has appended to [candidate_moves], in the order of the variations,
    the first move of each variation with its score, and has changed
    nothing else of the link and no board. *)
Theorem evaluate_candidate_moves_spec depth self w self' w' :
  evaluate_candidate_moves depth self w = Ok (self', w') ->
  let b := boards w (position self) in
  let multipv := Nat.min 3 (legal_moves_count E b) in
  same_boards w w'
  /\ sent (engine w')
     = sent (engine w)
       ++ (if Nat.eqb multipv 0 then []
           else [CmdSetOption "MultiPV" multipv; CmdPosition b;
                 CmdGo depth; CmdSetOption "MultiPV" 1])
  /\ exists new,
       mapM (candidate_of (info (engine w')) b) (seq 0 multipv) = Some new
       /\ self' = set_candidate_moves self (candidate_moves self ++ new).
Proof.
  intros H b multipv. unfold evaluate_candidate_moves in H. mstep H.
  fold b multipv in H.
  destruct (Nat.eqb_spec multipv 0) as [Hz|Hnz].
  - injection H as <- <-. rewrite Hz, app_nil_r. split_and!; try done.
    exists []. by rewrite app_nil_r, set_candidate_moves_same.
  - mstep H. mstep H. mstep H.
    apply bind_Ok in H as (bm & w2 & Hgo & H).
    unfold engine_go in Hgo. cbn [boards next_loc engine log sent info] in Hgo.
    destruct (engine_search E _) as [bm' i]. injection Hgo as <- <-.
    mstep H. apply bind_Ok in H as (self1 & w3 & Hloop & H).
    apply for_range_spec in Hloop as (Hsame & He & new & Hnew & ->).
    mstep H. injection H as <- <-.
    cbn [boards next_loc engine log sent info] in *.
    split_and!.
    + by destruct Hsame.
    + rewrite He. cbn [sent]. by rewrite <- !app_assoc.
    + exists new. rewrite He. by cbn [info].
Qed.

(** X4: with legal moves in the position, when the engine's answer has no
    first variation [evaluate_candidate_moves] raises [TypeError], and when
    the first variation is empty it raises [IndexError]. *)
Theorem evaluate_candidate_moves_without_variation depth self w bm i :
  let multipv :=
    Nat.min 3 (legal_moves_count E (boards w (position self))) in
  legal_moves_count E (boards w (position self)) <> 0 ->
  engine_search E (candidate_commands depth self w multipv) = (bm, i) ->
  (info_pv i !! 1 = None ->
   evaluate_candidate_moves depth self w = Raise TypeError)
  /\ (info_pv i !! 1 = Some [] ->
      evaluate_candidate_moves depth self w = Raise IndexError).
Proof.
  intros multipv Hcount Hsearch.
  assert (Hpos : exists k, multipv = S k).
  { unfold multipv.
    destruct (legal_moves_count E (boards w (position self))) as [|n];
      [done|].
    destruct n as [|[|n]]; simpl; eauto. }
  destruct Hpos as [k Hk].
  assert (Hrun : forall r,
    candidate_step i self 0
      (mkWorld (boards w) (next_loc w)
         (mkEngine (candidate_commands depth self w multipv) i)
         (log w ++ [LogEvaluatingBestN multipv depth])) = Raise r ->
    evaluate_candidate_moves depth self w = Raise r).
  { intros r Hstep.
    unfold evaluate_candidate_moves, bind, read, logging_debug,
      engine_setoption_MultiPV, engine_position, engine_send, bind, read,
      engine_go, engine_info.
    cbn [boards next_loc engine log sent info]. fold multipv.
    destruct (Nat.eqb_spec multipv 0) as [Hz|_]; [lia|]. cbv beta.
    fold (candidate_commands depth self w multipv). rewrite Hsearch.
    cbn [boards next_loc engine log sent info].
    replace (seq 0 multipv) with (0 :: seq 1 k) by (by rewrite Hk).
    cbn [for_range]. unfold bind at 1. by rewrite Hstep. }
  split; intros Hpv; apply Hrun; unfold candidate_step; cbn [Nat.add];
    rewrite Hpv; reflexivity.
Qed.

(** ** The shape of a generated chain *)

Lemma generate_links fuel : forall depth self w self' w',
  generate fuel depth self w = Ok (self', w') ->
  owned w self -> next_position self = None -> best_move self = None ->
  Forall (fun link => turn_flips link /\ continues (boards w') link
                      /\ answered link) (links self').
Proof.
  induction fuel as [|fuel IH]; intros depth self w self' w' H Hown Hnone
    Hbm; [done|].
  assert (Hall : Forall (owned w) (links self)).
  { rewrite links_unfold, Hnone. by apply Forall_cons. }
  pose proof (generate_inv _ _ _ _ _ _ H Hall) as (_ & _ & _ & _ & _ & _).
  apply generate_S_inv in H. cbv zeta in H.
  set (w1 := add_log w _) in H.
  assert (Hsame1 : same_boards w w1) by done.
  assert (Hown1 : owned w1 self) by done.
  clearbody w1.
  destruct H as [(_ & -> & ->)|[(w2 & Hbest & ->)|H]].
  - (* no legal moves *)
    rewrite links_unfold, Hnone. apply Forall_cons. split; [|done].
    unfold turn_flips, continues, answered. by rewrite Hnone, Hbm.
  - (* no best move *)
    pose proof (evaluate_best_sent _ _ _ _ _ _ Hbest) as [_ Hans].
    apply evaluate_best_inv in Hbest
      as (_ & _ & _ & _ & _ & _ & _ & Hnext & _).
    rewrite Hnone in Hnext.
    rewrite links_unfold, Hnext. apply Forall_cons. split; [|done].
    unfold turn_flips, continues, answered. rewrite Hnext, Hans. eauto.
  - (* a best move *)
    destruct H as (self1 & w2 & self2 & w3 & next & Hbest & Hcand & Hnext2
                   & H).
    pose proof (evaluate_best_sent _ _ _ _ _ _ Hbest) as [_ Hans].
    apply evaluate_best_inv in Hbest
      as (Hip1 & Him1 & Hp1 & Hturn1 & _ & Hst1 & [_ Hold2] & m & Hnext1
          & (bm & Hbm1 & Hbmm) & Hev1 & Hloc2 & Hbip & Hbp).
    apply evaluate_candidate_moves_inv in Hcand
      as ([Hb3 Hn3] & new & Hself2 & _).
    assert (Hfields : player_turn self2 = player_turn self
                      /\ strict self2 = strict self
                      /\ position self2 = position self
                      /\ best_move self2 = best_move self1
                      /\ evaluation self2 = evaluation self1
                      /\ next_position self2 = next_position self1)
      by (by rewrite Hself2).
    destruct Hfields as (Hturn2 & Hst2 & Hp2 & Hbm2 & Hev2 & Hnext2').
    rewrite Hnext2, Hnext1 in Hnext2'. injection Hnext2' as Hnext_eq.
    destruct Hown1 as [[Hipa Hpa] Hok1].
    assert (Hhead : forall next', 
      player_turn next' = player_turn next ->
      strict next' = strict next ->
      initial_move next' = initial_move next ->
      initial_position next' = initial_position next ->
      forall w5, extends w3 w5 ->
      let self5 := set_next_position self2 (Some next') in
      turn_flips self5 /\ continues (boards w5) self5 /\ answered self5).
    { intros next' Ht Hs Hm Hi w5 [_ Hold5] self5.
      unfold turn_flips, continues, answered, self5.
      cbn [next_position set_next_position player_turn strict best_move
           evaluation position].
      rewrite Ht, Hs, Hm, Hi, Hnext_eq, Hturn2, Hst2, Hbm2, Hev2, Hbm1, Hp2.
      cbn [player_turn strict initial_move initial_position].
      rewrite Hbm1 in Hans. injection Hans as Hans.
      destruct Hev1 as [ev Hev1]. rewrite Hev1.
      split_and!; eauto.
      rewrite !Hold5 by lia. rewrite Hb3, Hbip. symmetry. by apply Hold2. }
    assert (Hownn : owned w3 next).
    { rewrite Hnext_eq. unfold owned, allocated, link_ok.
      cbn [initial_position position initial_move].
      rewrite Hn3, Hb3, Hloc2, Hbip, Hbp. split; [lia|done]. }
    destruct H as [(why & -> & ->)|(next' & Hrec & ->)].
    + (* not going deeper *)
      rewrite links_unfold, Hnext2. apply Forall_cons. split.
      * replace self2 with (set_next_position self2 (Some next))
          by (by destruct self2; simpl in *; subst).
        by apply Hhead; [..|apply extends_add_log].
      * rewrite links_unfold. rewrite Hnext_eq.
        cbn [next_position]. apply Forall_cons. split; [|done].
        by unfold turn_flips, continues, answered.
    + (* going deeper *)
      assert (Hownn' : owned (add_log w3 [LogGoingDeeper]) next)
        by (by apply owned_extends with w3; [|apply extends_add_log]).
      assert (Halln : Forall (owned (add_log w3 [LogGoingDeeper]))
                        (links next)).
      { rewrite links_unfold, Hnext_eq. cbn [next_position].
        apply Forall_cons. split; [|done]. by rewrite <- Hnext_eq. }
      pose proof (generate_inv _ _ _ _ _ _ Hrec Halln)
        as (Hext5 & Hi5 & Hm5 & _ & Ht5 & Hs5 & _).
      apply IH in Hrec; [|done|by rewrite Hnext_eq..].
      rewrite links_unfold. cbn [next_position set_next_position].
      apply Forall_cons. split; [|done].
      by apply Hhead.
Qed.

Lemma __init___fresh p m turn strict_ w0 root w1 :
  __init__ p m turn strict_ w0 = Ok (root, w1) ->
  owned w1 root /\ next_position root = None /\ best_move root = None
  /\ player_turn root = turn /\ strict root = strict_.
Proof.
  intros Hinit.
  apply __init___inv in Hinit as (-> & Hn & _ & _ & _ & Hip & Hp).
  split_and!; try done.
  unfold owned, allocated, link_ok. simpl. rewrite Hn, Hip, Hp.
  split; [lia|done].
Qed.

(** X5: in a chain generated from a newly constructed root the root keeps
    its [player_turn] and [strict], and every link's successor has
    [player_turn] negated and [strict] unchanged. *)
Theorem generated_turns_alternate fuel depth p m turn strict_ w0 root w1
    root' w' :
  __init__ p m turn strict_ w0 = Ok (root, w1) ->
  generate fuel depth root w1 = Ok (root', w') ->
  player_turn root' = turn /\ strict root' = strict_
  /\ Forall turn_flips (links root').
Proof.
  intros Hinit Hgen.
  destruct (__init___fresh _ _ _ _ _ _ _ Hinit)
    as (Hown & Hnone & Hbm & Hturn & Hstrict).
  assert (Hall : Forall (owned w1) (links root)).
  { rewrite links_unfold, Hnone. by apply Forall_cons. }
  destruct (generate_inv _ _ _ _ _ _ Hgen Hall)
    as (_ & _ & _ & _ & Ht & Hs & _).
  split_and!; [congruence..|].
  eapply Forall_impl; [by eapply generate_links|]. by intros l (? & _).
Qed.

Lemma continues_plays_best_move w self :
  Forall (owned w) (links self) ->
  Forall (continues (boards w)) (links self) ->
  Forall (plays_best_move (boards w)) (links self).
Proof.
  induction self as [self Hnone|self next Hnext IH] using chain_ind;
    rewrite links_unfold; intros Hown Hcont;
    apply Forall_cons_1 in Hown as [_ Hown];
    apply Forall_cons_1 in Hcont as [Hself Hcont];
    apply Forall_cons; unfold plays_best_move, continues in *.
  - by rewrite Hnone.
  - rewrite Hnext in *. split; [|by apply IH].
    destruct Hself as ((bm & Hbm & Hm) & _ & Hb).
    exists bm, (initial_move next). split_and!; try done.
    rewrite links_unfold in Hown.
    apply Forall_cons_1 in Hown as [[_ Hok] _].
    by rewrite Hok, Hb.
Qed.

(** X6: a chain generated from a newly constructed root is a line of play:
    every link that has a successor holds a best move, and the successor
    stands on the position of the link with that move pushed. *)
Theorem generated_chain_plays_best_moves fuel depth p m turn strict_ w0
    root w1 root' w' :
  __init__ p m turn strict_ w0 = Ok (root, w1) ->
  generate fuel depth root w1 = Ok (root', w') ->
  Forall (plays_best_move (boards w')) (links root').
Proof.
  intros Hinit Hgen.
  destruct (__init___fresh _ _ _ _ _ _ _ Hinit)
    as (Hown & Hnone & Hbm & _).
  assert (Hall : Forall (owned w1) (links root)).
  { rewrite links_unfold, Hnone. by apply Forall_cons. }
  destruct (generate_inv _ _ _ _ _ _ Hgen Hall)
    as (_ & _ & _ & _ & _ & _ & Hown' & _).
  apply continues_plays_best_move; [done|].
  eapply Forall_impl; [by eapply generate_links|]. by intros l (_ & ? & _).
Qed.

(** X7: when the engine answers every search with a best move, [move_list]
    on a chain generated from a newly constructed root does not raise: it
    returns the line as described. *)
Theorem generated_move_list fuel depth p m turn strict_ w0 root w1 root' w' :
  (forall cmds, is_Some (bestmove (engine_search E cmds).1)) ->
  __init__ p m turn strict_ w0 = Ok (root, w1) ->
  generate fuel depth root w1 = Ok (root', w') ->
  move_list (boards w') root' = Ok (forced_line (boards w') root').
Proof.
  intros Hengine Hinit Hgen.
  destruct (__init___fresh _ _ _ _ _ _ _ Hinit)
    as (Hown & Hnone & Hbm & _).
  apply move_list_forced_line.
  eapply Forall_impl; [by eapply generate_links|].
  intros l (_ & _ & Hans). unfold answered, has_move in *.
  destruct (best_move l) as [bm|]; [|done].
  destruct Hans as [cmds ->]. apply Hengine.
Qed.

(** ** The option [MultiPV] *)

Lemma multipv_after_app (cmds1 cmds2 : list (UciCommand (Board E))) n :
  multipv_after (cmds1 ++ cmds2) n
  = multipv_after cmds2 (multipv_after cmds1 n).
Proof.
  revert n. induction cmds1 as [|c cmds1 IH]; intros n; [done|].
  destruct c; simpl; by rewrite IH.
Qed.

(** X8: [generate] only adds to what the engine has been sent, and leaves
    the option [MultiPV] at 1 when it was 1 at the call. *)
Theorem generate_restores_MultiPV fuel : forall depth self w self' w' n,
  multipv_after (sent (engine w)) n = 1 ->
  generate fuel depth self w = Ok (self', w') ->
  sent (engine w) `prefix_of` sent (engine w')
  /\ multipv_after (sent (engine w')) n = 1.
Proof.
  induction fuel as [|fuel IH]; intros depth self w self' w' n Hone H;
    [done|].
  apply generate_S_inv in H. cbv zeta in H.
  set (w1 := add_log w _) in H.
  assert (He1 : engine w1 = engine w) by done. clearbody w1.
  destruct H as [(_ & -> & ->)|[(w2 & Hbest & ->)|H]].
  - cbn [engine add_log]. by rewrite He1.
  - apply evaluate_best_sent in Hbest as [Hsent _].
    cbn [engine add_log]. rewrite Hsent. unfold best_commands.
    rewrite He1, <- app_assoc. split; [by eexists|].
    by rewrite multipv_after_app, Hone.
  - destruct H as (self1 & w2 & self2 & w3 & next & Hbest & Hcand & _ & H).
    apply evaluate_best_sent in Hbest as [Hsent2 _].
    apply evaluate_candidate_moves_spec in Hcand as (_ & Hsent3 & _).
    cbv zeta in Hsent3.
    set (k := Nat.min 3 _) in Hsent3.
    assert (Hpre : sent (engine w) `prefix_of` sent (engine w3)).
    { rewrite Hsent3, Hsent2. unfold best_commands.
      rewrite He1, <- !app_assoc. by eexists. }
    assert (Hone3 : multipv_after (sent (engine w3)) n = 1).
    { rewrite Hsent3, Hsent2. unfold best_commands.
      rewrite He1, !multipv_after_app, Hone. by destruct (Nat.eqb k 0). }
    destruct H as [(why & -> & ->)|(next' & Hrec & ->)]; [done|].
    apply IH with (n := n) in Hrec as [Hpre5 Hone5]; [|done].
    split; [|done]. by etrans.
Qed.

(** ** [move_list] and the best moves *)

Lemma best_ucis_unfold self :
  best_ucis self
  = match best_move self with
    | Some (mkBestMove (Some m) _) => [uci E m]
    | _ => []
    end ++
    match next_position self with
    | Some next => best_ucis next
    | None => []
    end.
Proof. by destruct self. Qed.

(** X9: what [move_list] returns is a prefix of the best moves of the
    chain, in their order. *)
Theorem move_list_prefix bs self : forall l,
  move_list bs self = Ok l -> l `prefix_of` best_ucis self.
Proof.
  induction self as [self Hnone|self next Hnext IH] using chain_ind;
    intros l; rewrite move_list_unfold, best_ucis_unfold; cbv zeta.
  - rewrite Hnone. destruct (best_move self) as [[[m|] po]|]; simpl;
      intros [= <-]; done.
  - rewrite Hnext.
    destruct (ambiguous next || is_game_over E (bs (position next))).
    + destruct (best_move self) as [[[m|] po]|]; simpl;
        intros [= <-]; [|apply prefix_nil].
      apply prefix_cons, prefix_nil.
    + destruct (best_move self) as [[[m|] po]|]; simpl; try done.
      destruct (move_list bs next) as [rest| |]; simpl; try done.
      intros [= <-]. apply prefix_cons. by apply IH.
Qed.

(** ** More on [is_complete] *)



Lemma category_of_tail bs self :
  category bs self
  = if is_game_over E (bs (position (tail_link self))) then "Mate"
    else "Material".
Proof.
  induction self as [self Hnone|self next Hnext IH] using chain_ind;
    rewrite category_unfold, tail_link_unfold.
  - by rewrite Hnone.
  - by rewrite Hnext.
Qed.

Lemma mate_reached_tail self :
  unambiguous_line self -> mate_reached self = tail_link self.
Proof.
  unfold unambiguous_line.
  induction self as [self Hnone|self next Hnext IH] using chain_ind;
    rewrite links_unfold, mate_reached_unfold, tail_link_unfold;
    intros Hall; apply Forall_cons_1 in Hall as [Hself Hrest].
  - by rewrite Hnone.
  - rewrite Hnext in *. rewrite Hself by done. by apply IH.
Qed.

(** X10: on a chain in which no link with a successor is ambiguous,
    [is_complete('Mate', ...)] answers [True] exactly when [category]
    answers ['Mate']. *)
Theorem is_complete_Mate_category bs self white_to_move d :
  unambiguous_line self ->
  is_complete bs self "Mate" white_to_move d
  = Ok (String.eqb (category bs self) "Mate").
Proof.
  intros Hline.
  rewrite is_complete_Mate, mate_reached_tail, category_of_tail by done.
  by destruct (is_game_over E _).
Qed.

(** X11: with a category that is neither ['Mate'] nor ['Material'],
    [is_complete] does not descend: it answers whether the position of the
    link it is called on is game over. *)
Theorem is_complete_other_category bs self category_ white_to_move d :
  category_ <> "Mate" -> category_ <> "Material" ->
  is_complete bs self category_ white_to_move d
  = Ok (is_game_over E (bs (position self))).
Proof.
  intros Hmate Hmaterial. apply String.eqb_neq in Hmate, Hmaterial.
  rewrite is_complete_unfold. unfold is_complete_here.
  rewrite Hmate, Hmaterial. simpl. by destruct (next_position self).
Qed.





End Facts.

(** * The properties on the small instance *)

Lemma generate_no_legal_moves_witness :
  legal_moves_count Toy.rules (boards (Toy.built 2) (position Toy.root)) = 0
  /\ generate 1 10 Toy.root (Toy.built 2)
     = Ok (Toy.root,
           mkWorld (boards (Toy.built 2)) (next_loc (Toy.built 2))
             (engine (Toy.built 2))
             (log (Toy.built 2)
              ++ position_records (boards (Toy.built 2)) Toy.root
              ++ [LogNoLegalMoves])).
Proof.
  assert (Hcount : legal_moves_count Toy.rules
                     (boards (Toy.built 2) (position Toy.root)) = 0)
    by (vm_compute; reflexivity).
  split; [exact Hcount|].
  exact (proj1 (generate_no_legal_moves 0 10 Toy.root (Toy.built 2) Hcount)).
Defined.

Lemma generate_recursion_witness :
  legal_moves_count Toy.rules (boards (Toy.built 0) (position Toy.root)) <> 0
  /\ exists next,
       next_position Toy.with_candidates = Some next
       /\ let unambiguous_and_open :=
            negb (ambiguous Toy.with_candidates)
            && negb (is_game_over Toy.rules
                       (boards Toy.compared (position Toy.with_candidates)))
            && negb (is_game_over Toy.rules
                       (boards Toy.compared (position next))) in
          if negb (player_turn Toy.root) || unambiguous_and_open then
            generate 3 10 Toy.root (Toy.built 0)
            = bind (generate 2 10 next)
                (fun next' =>
                   ret (set_next_position Toy.with_candidates (Some next')))
                (add_log Toy.compared [LogGoingDeeper])
          else
            exists why,
              generate 3 10 Toy.root (Toy.built 0)
              = Ok (Toy.with_candidates,
                    add_log Toy.compared [LogNotGoingDeeper why]).
Proof.
  assert (Hcount : legal_moves_count Toy.rules
                     (boards (Toy.built 0) (position Toy.root)) <> 0)
    by (vm_compute; discriminate).
  assert (Hlog : _log_position Toy.root (Toy.built 0) = Ok (tt, Toy.logged))
    by (vm_compute; reflexivity).
  assert (Hbest : evaluate_best 10 Toy.root Toy.logged
                  = Ok ((true, Toy.with_best), Toy.evaluated))
    by (vm_compute; reflexivity).
  assert (Hcand : evaluate_candidate_moves 10 Toy.with_best Toy.evaluated
                  = Ok (Toy.with_candidates, Toy.compared))
    by (vm_compute; reflexivity).
  split; [exact Hcount|].
  exact (generate_recursion 2 10 Toy.root (Toy.built 0) Toy.logged
           Toy.with_best Toy.evaluated Toy.with_candidates Toy.compared
           Hcount Hlog Hbest Hcand).
Defined.

Lemma candidate_moves_bounded_witness :
  __init__ 0 (1 : Move Toy.rules) true true (Toy.start 0)
  = Ok (Toy.root, Toy.built 0)
  /\ generate 5 10 Toy.root (Toy.built 0) = Ok (Toy.chain 0, Toy.after 0)
  /\ Forall (fun link =>
               length (candidate_moves link)
               <= Nat.min 3 (legal_moves_count Toy.rules
                               (boards (Toy.after 0) (position link))))
       (links (Toy.chain 0)).
Proof.
  assert (Hinit : __init__ 0 (1 : Move Toy.rules) true true (Toy.start 0)
                  = Ok (Toy.root, Toy.built 0))
    by (vm_compute; reflexivity).
  assert (Hgen : generate 5 10 Toy.root (Toy.built 0)
                 = Ok (Toy.chain 0, Toy.after 0))
    by (vm_compute; reflexivity).
  split; [exact Hinit|]. split; [exact Hgen|].
  exact (candidate_moves_bounded 5 10 0 (1 : Move Toy.rules) true true
           (Toy.start 0) Toy.root (Toy.built 0) (Toy.chain 0) (Toy.after 0)
           Hinit Hgen).
Defined.

Lemma position_is_initial_position_pushed_witness :
  0 < next_loc (Toy.start 0)
  /\ __init__ 0 (1 : Move Toy.rules) true true (Toy.start 0)
     = Ok (Toy.root, Toy.built 0)
  /\ boards (Toy.built 0) (position Toy.root)
     = push Toy.rules (boards (Toy.start 0) 0) 1
  /\ forall b, owned (caller_writes 0 b (Toy.built 0)) Toy.root.
Proof.
  assert (Hp : 0 < next_loc (Toy.start 0)) by (vm_compute; lia).
  assert (Hinit : __init__ 0 (1 : Move Toy.rules) true true (Toy.start 0)
                  = Ok (Toy.root, Toy.built 0))
    by (vm_compute; reflexivity).
  split; [exact Hp|]. split; [exact Hinit|].
  destruct (position_is_initial_position_pushed 0 (1 : Move Toy.rules)
              true true (Toy.start 0) Toy.root (Toy.built 0) Hp Hinit)
    as ((_ & _ & Hpos & _) & Hcaller & _).
  split; [exact Hpos|]. intros b. exact (proj1 (Hcaller b)).
Defined.



(** C4 as stated fails: White to move, a starting material difference of
    -2.5, of magnitude 2.5, and a chain that ends 0.3 up; the answer is
    [True]. *)
Lemma is_complete_Material_start_below :
  (2 <= Qabs (- (25 # 10)))%Q
  /\ is_complete (boards (Toy.after 19)) (Toy.chain 19) "Material" true
       (- (25 # 10))
     = Ok true.
Proof. split; [vm_compute; discriminate|vm_compute; reflexivity]. Qed.

Lemma is_complete_Material_decided_start_witness :
  (2 <= 25 # 10)%Q
  /\ is_complete (boards (Toy.after 19)) (Toy.chain 19) "Material" true
       (25 # 10)
     = Ok false.
Proof.
  assert (Hd : (2 <= 25 # 10)%Q) by (vm_compute; discriminate).
  split; [exact Hd|].
  exact (is_complete_Material_decided_start (boards (Toy.after 19))
           (Toy.chain 19) true (25 # 10) Hd).
Defined.

Lemma is_complete_Material_scenario_witness :
  is_complete (boards (Toy.after 19)) (Toy.chain 19) "Material" true 0
  = Ok true
  /\ is_complete (boards (Toy.after 29)) (Toy.chain 29) "Material" true 0
     = Ok false.
Proof.
  split.
  - apply (proj1 (is_complete_Material_scenario (boards (Toy.after 19))
                    (Toy.chain 19) (mkScore (Some 30%Z) None)
                    ltac:(vm_compute; reflexivity)
                    ltac:(vm_compute; reflexivity) eq_refl)).
    vm_compute. reflexivity.
  - apply (proj2 (is_complete_Material_scenario (boards (Toy.after 29))
                    (Toy.chain 29) (mkScore (Some 30%Z) None)
                    ltac:(vm_compute; reflexivity)
                    ltac:(vm_compute; reflexivity) eq_refl)).
    vm_compute. reflexivity.
Defined.

(** C2: a chain generated to its end whose last position is game over
    without being checkmate; [category] answers ['Mate'] and
    [is_complete('Mate', ...)] answers [True].  The same on a root whose own
    position is such a position. *)
Lemma is_complete_Mate_without_checkmate :
  Toy.puzzle 4 5 = Ok (Toy.chain 4, Toy.after 4)
  /\ map (fun link => boards (Toy.after 4) (position link))
       (links (Toy.chain 4)) = [5; 6; 7]
  /\ is_game_over Toy.rules
       (boards (Toy.after 4) (position (tail_link (Toy.chain 4)))) = true
  /\ is_checkmate Toy.rules
       (boards (Toy.after 4) (position (tail_link (Toy.chain 4)))) = false
  /\ category (boards (Toy.after 4)) (Toy.chain 4) = "Mate"
  /\ is_complete (boards (Toy.after 4)) (Toy.chain 4) "Mate" true 0
     = Ok true
  /\ Toy.puzzle 6 5 = Ok (Toy.chain 6, Toy.after 6)
  /\ next_position (Toy.chain 6) = None
  /\ is_checkmate Toy.rules
       (boards (Toy.after 6) (position (Toy.chain 6))) = false
  /\ is_complete (boards (Toy.after 6)) (Toy.chain 6) "Mate" true 0
     = Ok true.
Proof. split_and!; vm_compute; reflexivity. Qed.

(** C3: the engine has no best move on a position with legal moves that is
    not game over; [generate] stores the answer in [best_move] and returns,
    and [move_list] on the link raises [AttributeError]. *)
Lemma move_list_after_no_best_move :
  Toy.puzzle 39 5 = Ok (Toy.chain 39, Toy.after 39)
  /\ next_position (Toy.chain 39) = None
  /\ best_move (Toy.chain 39) = Some (mkBestMove None None)
  /\ legal_moves_count Toy.rules
       (boards (Toy.after 39) (position (Toy.chain 39))) = 2
  /\ is_game_over Toy.rules
       (boards (Toy.after 39) (position (Toy.chain 39))) = false
  /\ move_list (boards (Toy.after 39)) (Toy.chain 39)
     = Raise AttributeError.
Proof. split_and!; vm_compute; reflexivity. Qed.

Lemma evaluate_best_without_best_move_witness :
  evaluate_best 10 Toy.root (Toy.built 39)
  = Ok ((false, set_best_move Toy.root (Some (mkBestMove None None))),
        mkWorld (boards (Toy.built 39)) (next_loc (Toy.built 39))
          (mkEngine (best_commands 10 Toy.root (Toy.built 39))
             (Toy.search (best_commands 10 Toy.root (Toy.built 39))).2)
          (log (Toy.built 39) ++ [LogEvaluatingBest 10; LogNoBestMove])).
Proof.
  assert (Hsearch :
    engine_search Toy.rules (best_commands 10 Toy.root (Toy.built 39))
    = (mkBestMove None None,
       (Toy.search (best_commands 10 Toy.root (Toy.built 39))).2))
    by (vm_compute; reflexivity).
  exact (evaluate_best_without_best_move 10 Toy.root (Toy.built 39) _ _
           Hsearch eq_refl).
Defined.

Lemma evaluate_best_without_score_witness :
  evaluate_best 10 Toy.mute_root Toy.mute_built = Raise KeyError.
Proof.
  assert (Hsearch :
    engine_search Toy.mute (best_commands 10 Toy.mute_root Toy.mute_built)
    = (mkBestMove (Some 1) None, mkInfo ∅ ∅))
    by (vm_compute; reflexivity).
  exact (evaluate_best_without_score 10 Toy.mute_root Toy.mute_built _ _ 1
           Hsearch eq_refl eq_refl).
Defined.

Lemma evaluate_candidate_moves_spec_witness :
  evaluate_candidate_moves 10 Toy.with_best Toy.evaluated
  = Ok (Toy.with_candidates, Toy.compared)
  /\ sent (engine Toy.compared)
     = sent (engine Toy.evaluated)
       ++ [CmdSetOption "MultiPV" 2; CmdPosition 1; CmdGo 10;
           CmdSetOption "MultiPV" 1].
Proof.
  assert (Hcand : evaluate_candidate_moves 10 Toy.with_best Toy.evaluated
                  = Ok (Toy.with_candidates, Toy.compared))
    by (vm_compute; reflexivity).
  split; [exact Hcand|].
  destruct (evaluate_candidate_moves_spec 10 Toy.with_best Toy.evaluated
              Toy.with_candidates Toy.compared Hcand) as (_ & Hsent & _).
  exact Hsent.
Defined.

Lemma evaluate_candidate_moves_without_variation_witness :
  legal_moves_count Toy.mute
    (boards Toy.mute_built (position Toy.mute_root)) <> 0
  /\ evaluate_candidate_moves 10 Toy.mute_root Toy.mute_built
     = Raise TypeError.
Proof.
  assert (Hcount : legal_moves_count Toy.mute
                     (boards Toy.mute_built (position Toy.mute_root)) <> 0)
    by (vm_compute; discriminate).
  assert (Hsearch :
    engine_search Toy.mute
      (candidate_commands 10 Toy.mute_root Toy.mute_built
         (Nat.min 3 (legal_moves_count Toy.mute
                       (boards Toy.mute_built (position Toy.mute_root)))))
    = (mkBestMove (Some 1) None, mkInfo ∅ ∅))
    by (vm_compute; reflexivity).
  split; [exact Hcount|].
  exact (proj1 (evaluate_candidate_moves_without_variation 10 Toy.mute_root
                  Toy.mute_built _ _ Hcount Hsearch) eq_refl).
Defined.

Lemma generated_turns_alternate_witness :
  __init__ 0 (1 : Move Toy.rules) true true (Toy.start 0)
  = Ok (Toy.root, Toy.built 0)
  /\ generate 5 10 Toy.root (Toy.built 0) = Ok (Toy.chain 0, Toy.after 0)
  /\ map player_turn (links (Toy.chain 0)) = [true; false; true]
  /\ Forall turn_flips (links (Toy.chain 0)).
Proof.
  assert (Hinit : __init__ 0 (1 : Move Toy.rules) true true (Toy.start 0)
                  = Ok (Toy.root, Toy.built 0))
    by (vm_compute; reflexivity).
  assert (Hgen : generate 5 10 Toy.root (Toy.built 0)
                 = Ok (Toy.chain 0, Toy.after 0))
    by (vm_compute; reflexivity).
  split; [exact Hinit|]. split; [exact Hgen|].
  split; [vm_compute; reflexivity|].
  exact (proj2 (proj2 (generated_turns_alternate 5 10 0 (1 : Move Toy.rules)
                         true true (Toy.start 0) Toy.root (Toy.built 0)
                         (Toy.chain 0) (Toy.after 0) Hinit Hgen))).
Defined.

Lemma generated_chain_plays_best_moves_witness :
  __init__ 0 (1 : Move Toy.rules) true true (Toy.start 0)
  = Ok (Toy.root, Toy.built 0)
  /\ generate 5 10 Toy.root (Toy.built 0) = Ok (Toy.chain 0, Toy.after 0)
  /\ Forall (plays_best_move (boards (Toy.after 0))) (links (Toy.chain 0)).
Proof.
  assert (Hinit : __init__ 0 (1 : Move Toy.rules) true true (Toy.start 0)
                  = Ok (Toy.root, Toy.built 0))
    by (vm_compute; reflexivity).
  assert (Hgen : generate 5 10 Toy.root (Toy.built 0)
                 = Ok (Toy.chain 0, Toy.after 0))
    by (vm_compute; reflexivity).
  split; [exact Hinit|]. split; [exact Hgen|].
  exact (generated_chain_plays_best_moves 5 10 0 (1 : Move Toy.rules) true
           true (Toy.start 0) Toy.root (Toy.built 0) (Toy.chain 0)
           (Toy.after 0) Hinit Hgen).
Defined.

Lemma generated_move_list_witness :
  (forall cmds, is_Some (bestmove (engine_search Toy.steady cmds).1))
  /\ move_list (boards Toy.steady_after) Toy.steady_chain
     = Ok (forced_line (boards Toy.steady_after) Toy.steady_chain)
  /\ forced_line (boards Toy.steady_after) Toy.steady_chain
     = ["e2e4"; "e2e4"].
Proof.
  assert (Hengine : forall cmds,
             is_Some (bestmove (engine_search Toy.steady cmds).1))
    by (intros cmds; by eexists).
  assert (Hinit : __init__ 0 (1 : Move Toy.steady) true true
                    Toy.steady_start
                  = Ok (Toy.steady_root, Toy.steady_built))
    by (vm_compute; reflexivity).
  assert (Hgen : generate 5 10 Toy.steady_root Toy.steady_built
                 = Ok (Toy.steady_chain, Toy.steady_after))
    by (vm_compute; reflexivity).
  split; [exact Hengine|]. split; [|vm_compute; reflexivity].
  exact (generated_move_list 5 10 0 (1 : Move Toy.steady) true true
           Toy.steady_start Toy.steady_root Toy.steady_built
           Toy.steady_chain Toy.steady_after Hengine Hinit Hgen).
Defined.

Lemma generate_restores_MultiPV_witness :
  multipv_after (sent (engine (Toy.built 0))) 1 = 1
  /\ generate 5 10 Toy.root (Toy.built 0) = Ok (Toy.chain 0, Toy.after 0)
  /\ multipv_after (sent (engine (Toy.after 0))) 1 = 1.
Proof.
  assert (Hone : multipv_after (sent (engine (Toy.built 0))) 1 = 1)
    by (vm_compute; reflexivity).
  assert (Hgen : generate 5 10 Toy.root (Toy.built 0)
                 = Ok (Toy.chain 0, Toy.after 0))
    by (vm_compute; reflexivity).
  split; [exact Hone|]. split; [exact Hgen|].
  exact (proj2 (generate_restores_MultiPV 5 10 Toy.root (Toy.built 0)
                  (Toy.chain 0) (Toy.after 0) 1 Hone Hgen)).
Defined.

Lemma move_list_prefix_witness :
  move_list (boards (Toy.after 0)) (Toy.chain 0) = Ok ["e2e4"; "e2e4"]
  /\ ["e2e4"; "e2e4"] `prefix_of` best_ucis (Toy.chain 0).
Proof.
  assert (Hlist : move_list (boards (Toy.after 0)) (Toy.chain 0)
                  = Ok ["e2e4"; "e2e4"])
    by (vm_compute; reflexivity).
  split; [exact Hlist|].
  exact (move_list_prefix (boards (Toy.after 0)) (Toy.chain 0) _ Hlist).
Defined.

Lemma is_complete_Mate_category_witness :
  unambiguous_line (Toy.chain 0)
  /\ is_complete (boards (Toy.after 0)) (Toy.chain 0) "Mate" true 0
     = Ok (String.eqb (category (boards (Toy.after 0)) (Toy.chain 0)) "Mate").
Proof.
  assert (Hline : unambiguous_line (Toy.chain 0)).
  { unfold unambiguous_line. apply Forall_forall. intros l _ _. reflexivity. }
  split; [exact Hline|].
  exact (is_complete_Mate_category (boards (Toy.after 0)) (Toy.chain 0) true
           0 Hline).
Defined.

Lemma is_complete_other_category_witness :
  is_complete (boards (Toy.after 0)) (Toy.chain 0) "Draw" true 0 = Ok false.
Proof.
  assert (Hmate : "Draw" <> "Mate") by discriminate.
  assert (Hmaterial : "Draw" <> "Material") by discriminate.
  exact (is_complete_other_category (boards (Toy.after 0)) (Toy.chain 0)
           "Draw" true 0 Hmate Hmaterial).
Defined.

